(** * namma-ooru-backend: the member directory service (src/server.js)

    A shallow embedding of the request handlers of [src/server.js] and of
    the part of the document store they drive: the query filters, the
    aggregation pipelines, cursor sort/skip/limit and [updateOne] with
    [$set].

    Conventions of the model.
    - A document (and every JavaScript object used as a record) is a finite
      map from field names to values, [gmap string value]; documents are
      flat: a field holds a scalar, and field names are top-level names.
    - The collection "members" is a [list] of documents, in the store's
      natural order.
    - A character is one [ascii] code unit; letter case is folded on
      A-Z/a-z only.
    - A handler is a computation in the monad [M]: it reads and writes the
      collection, records every call made to the store in a log, and ends
      with a response, a thrown exception, or [Beyond] where the store's
      answer lies outside this model.
    - Patterns are modelled on a fragment, literal characters and [.];
      where a property is to hold of every pattern the store accepts, the
      pattern engine of the store and its order among equal sort keys are
      parameters ([get_members_in]). *)

From Stdlib Require Import ZArith String Ascii Lia.
From Stdlib Require Import Sorting.Sorted Sorting.Permutation.
From stdpp Require Import gmap strings list fin_maps sorting pretty.

#[local] Set Warnings "-register-all".

Local Open Scope string_scope.
Local Open Scope list_scope.
Local Open Scope Z_scope.

(** ** Values and documents *)

Module Bson.

(** The scalar values a field of a member document holds. [VOid] is an
    ObjectId in its 24-digit lower-case hexadecimal form, [VDate] a date in
    milliseconds since the epoch. A field that is absent from a document
    is absent from the map. *)
Inductive value :=
| VNull
| VStr (s : string)
| VNum (z : Z)
| VOid (hex : string)
| VDate (ms : Z).

#[global] Instance value_eq_dec : EqDecision value.
Proof. solve_decision. Defined.

Abbreviation doc := (gmap string value).

(** A JavaScript object literal: properties are defined left to right, and
    a later definition of a name replaces an earlier one. *)
Definition js_object (props : list (string * value)) : doc :=
  foldl (fun o kv => <[kv.1 := kv.2]> o) ∅ props.

(** Reading a field for comparison or grouping: a missing field reads as
    null. *)
Definition field_or_null (f : string) (d : doc) : value :=
  default VNull (d !! f).

(** The store's comparison order: values of different types are ordered by
    type (null, then numbers, then strings, then ObjectIds, then dates);
    numbers by value, strings and ObjectIds by their code units. *)
Definition type_rank (v : value) : Z :=
  match v with
  | VNull => 1
  | VNum _ => 2
  | VStr _ => 3
  | VOid _ => 8
  | VDate _ => 10
  end.

Definition value_leb (a b : value) : bool :=
  match a, b with
  | VNull, VNull => true
  | VNum x, VNum y => x <=? y
  | VStr s, VStr t => String.leb s t
  | VOid s, VOid t => String.leb s t
  | VDate x, VDate y => x <=? y
  | _, _ => type_rank a <? type_rank b
  end.

Definition value_le (a b : value) : Prop := value_leb a b = true.

End Bson.
Export Bson.

(** ** Text: case folding, substrings, trimming *)

Module Text.

Definition is_upper (c : ascii) : bool :=
  let n := nat_of_ascii c in (65 <=? n)%nat && (n <=? 90)%nat.

Definition to_lower (c : ascii) : ascii :=
  if is_upper c then ascii_of_nat (nat_of_ascii c + 32) else c.

Definition lower (s : string) : string :=
  string_of_list_ascii (map to_lower (list_ascii_of_string s)).

(** [String.prototype.trim] strips these code units from both ends. *)
Definition is_space (c : ascii) : bool :=
  let n := nat_of_ascii c in
  ((9 <=? n)%nat && (n <=? 13)%nat) || (n =? 32)%nat || (n =? 160)%nat.

Fixpoint drop_space (l : list ascii) : list ascii :=
  match l with
  | c :: l' => if is_space c then drop_space l' else l
  | [] => []
  end.

Definition trim (s : string) : string :=
  string_of_list_ascii
    (rev (drop_space (rev (drop_space (list_ascii_of_string s))))).

End Text.
Export Text.

(** ** Regular expressions: the fragment of the store's pattern syntax
    that the model covers *)

Module Regex.

(** A pattern of this fragment is a sequence of atoms: an ordinary
    character stands for itself and [.] for any character but a newline.
    Patterns that use any other metacharacter (quantifiers, classes,
    groups, alternation, anchors, escapes) are outside the fragment. *)
Inductive atom :=
| Lit (c : ascii)
| AnyChar.

Definition metachars : list ascii :=
  list_ascii_of_string "\^$.[]|()?*+{}".

Definition is_meta (c : ascii) : bool := bool_decide (c ∈ metachars).

Fixpoint parse (p : list ascii) : option (list atom) :=
  match p with
  | [] => Some []
  | c :: p' =>
      if Ascii.eqb c "." then cons AnyChar <$> parse p'
      else if is_meta c then None
      else cons (Lit c) <$> parse p'
  end.

Definition atom_matches (ci : bool) (a : atom) (x : ascii) : bool :=
  match a with
  | Lit c => if ci then Ascii.eqb (to_lower c) (to_lower x) else Ascii.eqb c x
  | AnyChar => negb (Ascii.eqb x "010")
  end.

(** The atoms match a prefix of the subject. *)
Fixpoint match_here (ci : bool) (r : list atom) (s : list ascii) : bool :=
  match r, s with
  | [], _ => true
  | a :: r', x :: s' => atom_matches ci a x && match_here ci r' s'
  | _ :: _, [] => false
  end.

(** Unanchored search: the atoms match at some offset of the subject. *)
Fixpoint search (ci : bool) (r : list atom) (s : list ascii) : bool :=
  match_here ci r s ||
  match s with
  | [] => false
  | _ :: s' => search ci r s'
  end.

(** [{ $regex: p, $options: o }] against a string: [None] when the pattern
    is outside the fragment. *)
Definition test (p : string) (ci : bool) (s : string) : option bool :=
  r ← parse (list_ascii_of_string p);
  Some (search ci r (list_ascii_of_string s)).

(** A term without metacharacters. *)
Definition plain (p : string) : Prop :=
  Forall (fun c => is_meta c = false) (list_ascii_of_string p).

End Regex.

(** The specification's notion of a text match: the term occurs in the
    subject as a substring once letter case is folded. *)
Definition ci_substring (t s : string) : Prop :=
  exists pre post : list ascii,
    list_ascii_of_string (lower s) = pre ++ list_ascii_of_string (lower t) ++ post.

(** ** Queries *)

(** The condition a filter puts on one field: a literal to equal, or an
    operator object such as [{ $ne: v }] or [{ $regex: p, $options: o }]. *)
Inductive cond :=
| CEq (v : value)
| COps (ops : doc).

Inductive query :=
| QField (f : string) (c : cond)
| QAnd (qs : list query)
| QOr (qs : list query).

(** A query object is the conjunction of its clauses; [{}] is [QAnd []]. *)
Definition query_object (clauses : list query) : query := QAnd clauses.

(** Equality match: a literal null also matches a missing field. *)
Definition eq_match (fv : option value) (v : value) : bool :=
  bool_decide (default VNull fv = v).

Definition known_ops : gset string := {[ "$ne"; "$regex"; "$options" ]}.

(** An operator object holds when each of its operators holds. [$regex]
    matches string values only. Operator objects with other operators, and
    patterns outside the fragment, give [None]. *)
Definition eval_ops (ops : doc) (fv : option value) : option bool :=
  if bool_decide (dom ops ⊆ known_ops) then
    let ne :=
      match ops !! "$ne" with
      | Some a => negb (eq_match fv a)
      | None => true
      end in
    let ci := bool_decide (ops !! "$options" = Some (VStr "i")) in
    match ops !! "$regex" with
    | None => Some ne
    | Some (VStr p) =>
        match fv with
        | Some (VStr s) => b ← Regex.test p ci s; Some (ne && b)
        | _ => _ ← Regex.parse (list_ascii_of_string p); Some false
        end
    | Some _ => None
    end
  else None.

Definition eval_cond (c : cond) (fv : option value) : option bool :=
  match c with
  | CEq v => Some (eq_match fv v)
  | COps ops => eval_ops ops fv
  end.

Fixpoint eval (q : query) (d : doc) : option bool :=
  match q with
  | QField f c => eval_cond c (d !! f)
  | QAnd qs =>
      (fix all (qs : list query) : option bool :=
         match qs with
         | [] => Some true
         | q' :: qs' => b ← eval q' d; bs ← all qs'; Some (b && bs)
         end) qs
  | QOr qs =>
      (fix any (qs : list query) : option bool :=
         match qs with
         | [] => Some false
         | q' :: qs' => b ← eval q' d; bs ← any qs'; Some (b || bs)
         end) qs
  end.

(** The documents of a list that satisfy a filter, in their order. *)
Fixpoint select (q : query) (docs : list doc) : option (list doc) :=
  match docs with
  | [] => Some []
  | d :: docs' =>
      b ← eval q d; rest ← select q docs';
      Some (if b : bool then d :: rest else rest)
  end.

(** ** Sorting, grouping and the aggregation pipeline *)

Definition by_field (f : string) (dir : Z) (a b : doc) : Prop :=
  if 0 <=? dir then value_le (field_or_null f a) (field_or_null f b)
  else value_le (field_or_null f b) (field_or_null f a).

#[global] Instance by_field_dec f dir a b : Decision (by_field f dir a b).
Proof. unfold by_field, value_le. destruct (0 <=? dir); apply _. Defined.

(** [sort({f: dir})]: ascending for [dir = 1], descending for [dir = -1].
    The order the store gives to documents with equal keys is its own; the
    model takes the one of a merge sort. *)
Definition sort_docs (f : string) (dir : Z) (docs : list doc) : list doc :=
  merge_sort (by_field f dir) docs.

(** The frequency table of [$group: { _id: "$f", count: { $sum: 1 } }]:
    one entry per distinct key, in order of first occurrence. *)
Fixpoint bump (k : value) (tbl : list (value * Z)) : list (value * Z) :=
  match tbl with
  | [] => [(k, 1)]
  | (k', n) :: tbl' =>
      if decide (k = k') then (k', n + 1) :: tbl' else (k', n) :: bump k tbl'
  end.

Definition tally (f : string) (docs : list doc) : list (value * Z) :=
  foldl (fun tbl d => bump (field_or_null f d) tbl) [] docs.

Definition group_row (kn : value * Z) : doc :=
  js_object [("_id", kn.1); ("count", VNum kn.2)].

Inductive stage :=
| Match (q : query)
| GroupCount (f : string)
| Sort (f : string) (dir : Z)
| Limit (n : nat).

Definition run_stage (s : stage) (docs : list doc) : option (list doc) :=
  match s with
  | Match q => select q docs
  | GroupCount f => Some (map group_row (tally f docs))
  | Sort f dir => Some (sort_docs f dir docs)
  | Limit n => Some (take n docs)
  end.

Fixpoint run_pipeline (p : list stage) (docs : list doc) : option (list doc) :=
  match p with
  | [] => Some docs
  | s :: p' => docs' ← run_stage s docs; run_pipeline p' docs'
  end.

(** ** The store and the handler monad *)

Inductive exn := TypeError | BSONError | MongoServerError.

Inductive outcome (A : Type) :=
| Return (a : A)
| Throw (e : exn)
| Beyond.
Arguments Return {A} a.
Arguments Throw {A} e.
Arguments Beyond {A}.

(** A cursor over [find(q)], with the options chained on it. *)
Record cursor := {
  c_filter : query;
  c_project : list string;
  c_sort : string;
  c_skip : option Z;
  c_limit : option Z
}.

(** The calls a handler makes on the collection. *)
Inductive call :=
| CallFind (c : cursor)
| CallFindOne (q : query)
| CallAggregate (p : list stage)
| CallUpdateOne (q : query) (set : doc).

Record world := {
  members : list doc;
  calls : list call
}.

Definition M (A : Type) : Type := world -> outcome A * world.

Definition ret {A} (a : A) : M A := fun w => (Return a, w).

Definition bind {A B} (m : M A) (k : A -> M B) : M B :=
  fun w =>
    match m w with
    | (Return a, w') => k a w'
    | (Throw e, w') => (Throw e, w')
    | (Beyond, w') => (Beyond, w')
    end.

Definition throw {A} (e : exn) : M A := fun w => (Throw e, w).

(** [try { m } catch (error) { h }] *)
Definition try_catch {A} (m : M A) (h : exn -> M A) : M A :=
  fun w =>
    match m w with
    | (Throw e, w') => h e w'
    | r => r
    end.

#[global] Instance M_ret : MRet M := @ret.
#[global] Instance M_bind : MBind M := fun A B k m => bind m k.

Definition log_call (c : call) : M unit :=
  fun w => (Return tt, {| members := members w; calls := calls w ++ [c] |}).

Definition of_option {A} (o : option A) : M A :=
  fun w => match o with Some a => (Return a, w) | None => (Beyond, w) end.

(** [project({f1: 1, ...})]: the listed fields, where present. *)
Definition project (fields : list string) (d : doc) : doc :=
  filter (fun kv => kv.1 ∈ fields) d.

(** [limit(n)] for [n >= 0]: 0 is no limit. *)
Definition apply_limit (n : Z) (docs : list doc) : list doc :=
  if n =? 0 then docs else take (Z.to_nat n) docs.

(** [find(q).project(..).sort({f: 1}).skip(s).limit(n).toArray()].
    The store rejects a negative skip. A negative limit asks for a single
    batch, whose size is the store's own: the model leaves it out. The
    store reads the query before it reads the collection: a query outside
    the model is so on an empty collection too. *)
Definition find_toArray (c : cursor) : M (list doc) :=
  _ ← log_call (CallFind c);
  (fun w =>
    if bool_decide (default 0 (c_skip c) < 0) then (Throw MongoServerError, w)
    else if bool_decide (default 0 (c_limit c) < 0) then (Beyond, w)
    else
      match eval (c_filter c) ∅, select (c_filter c) (members w) with
      | Some _, Some found =>
          let sorted := sort_docs (c_sort c) 1 found in
          let skipped := drop (Z.to_nat (default 0 (c_skip c))) sorted in
          let limited := apply_limit (default 0 (c_limit c)) skipped in
          (Return (map (project (c_project c)) limited), w)
      | _, _ => (Beyond, w)
      end) : M (list doc).

(** [aggregate(p).toArray()] *)
Definition aggregate_toArray (p : list stage) : M (list doc) :=
  _ ← log_call (CallAggregate p);
  (fun w => of_option (run_pipeline p (members w)) w) : M (list doc).

(** [findOne(q)]: the first document that satisfies [q], if any. *)
Definition findOne (q : query) : M (option doc) :=
  _ ← log_call (CallFindOne q);
  (fun w => of_option (head <$> select q (members w)) w) : M (option doc).

(** A key of [$set] that names a top-level field: it is not empty, holds
    no dot (the store reads a key with a dot as a path into the document)
    and no null character (which no field name can hold), and starts
    with no dollar sign. *)
Definition plain_key (k : string) : bool :=
  match list_ascii_of_string k with
  | [] => false
  | c :: l =>
      negb (Ascii.eqb c "$") &&
      forallb (fun x => negb (Ascii.eqb x ".") && negb (Ascii.eqb x "000")) (c :: l)
  end.

Definition has_dot (k : string) : bool :=
  existsb (fun x => Ascii.eqb x ".") (list_ascii_of_string k).

(** The part of a path before its first dot. *)
Fixpoint head_chars (k : list ascii) : list ascii :=
  match k with
  | [] => []
  | c :: k' => if Ascii.eqb c "." then [] else c :: head_chars k'
  end.

Definition path_head (k : string) : string :=
  string_of_list_ascii (head_chars (list_ascii_of_string k)).

(** What [$set: set] makes of a document. *)
Inductive applied :=
| Written (d' : doc)
| Refused
| Unmodelled.

(** With plain keys, the fields of [set] replace or extend those of the
    document and the others stay. A key that is a path through a field the
    document holds is refused, the fields of a document being scalars here;
    other keys that are not plain (paths that would create an embedded
    document, keys with a dollar sign) are outside the model. *)
Definition apply_set (set d : doc) : applied :=
  if bool_decide (map_Forall (fun k _ => plain_key k = true) set) then
    Written (set ∪ d)
  else if bool_decide (map_Exists (fun k _ => has_dot k = true /\
                                   is_Some (d !! path_head k)) set) then
    Refused
  else Unmodelled.

(** [$set] on the first document that satisfies [q]. The result is the new
    collection and [matchedCount]. Where no document satisfies [q] the
    keys are only parsed: plain keys pass, others are outside the model. *)
Fixpoint update_first (q : query) (set : doc) (docs : list doc)
  : outcome (list doc * Z) :=
  match docs with
  | [] =>
      if bool_decide (map_Forall (fun k _ => plain_key k = true) set)
      then Return ([], 0) else Beyond
  | d :: docs' =>
      match eval q d with
      | None => Beyond
      | Some true =>
          match apply_set set d with
          | Written d' => Return (d' :: docs', 1)
          | Refused => Throw MongoServerError
          | Unmodelled => Beyond
          end
      | Some false =>
          match update_first q set docs' with
          | Return r => Return (d :: r.1, r.2)
          | Throw e => Throw e
          | Beyond => Beyond
          end
      end
  end.

(** [updateOne(q, { $set: set })], returning [matchedCount]. The store
    refuses an update with an empty key, whatever the collection holds. *)
Definition updateOne (q : query) (set : doc) : M Z :=
  _ ← log_call (CallUpdateOne q set);
  (fun w =>
    if bool_decide (is_Some (set !! "")) then (Throw MongoServerError, w)
    else
      match update_first q set (members w) with
      | Return (docs', n) => (Return n, {| members := docs'; calls := calls w |})
      | Throw e => (Throw e, w)
      | Beyond => (Beyond, w)
      end) : M Z.

(** [new ObjectId(id)] for a string: 24 hexadecimal digits, else it
    throws (as the driver's current versions do; older ones also took any
    string of 12 characters). *)
Definition is_hex (c : ascii) : bool :=
  let n := nat_of_ascii c in
  ((48 <=? n)%nat && (n <=? 57)%nat) || ((65 <=? n)%nat && (n <=? 70)%nat)
  || ((97 <=? n)%nat && (n <=? 102)%nat).

Definition ObjectId_isValid (id : string) : bool :=
  (String.length id =? 24)%nat && forallb is_hex (list_ascii_of_string id).

Definition new_ObjectId (id : string) : M value :=
  if ObjectId_isValid id then ret (VOid (lower id)) else throw BSONError.

(** ** Responses *)

(** The bodies the handlers send with [res.json]. *)
Inductive json :=
| JMessage (message : string)
| JDocs (rows : list doc)
| JAnalytics (nativeVillage cityResidence nagaraKovil yearMoved : list doc)
| JUpdated (message : string) (member : option doc).

Record response := {
  status : Z;
  body : json
}.

(** [res.json(b)] and [res.status(code).json(b)] *)
Definition res_json (b : json) : response := {| status := 200; body := b |}.
Definition res_status_json (code : Z) (b : json) : response :=
  {| status := code; body := b |}.

Definition internal_error : response :=
  res_status_json 500 (JMessage "Internal server error").

Fixpoint mapM {A B} (f : A -> M B) (l : list A) : M (list B) :=
  match l with
  | [] => mret []
  | x :: l' => y ← f x; ys ← mapM f l'; mret (y :: ys)
  end.

(** A property whose value is [undefined] is left out of the JSON. *)
Definition set_opt (k : string) (v : option value) (o : doc) : doc :=
  match v with
  | Some x => <[k := x]> o
  | None => o
  end.

(** The integers a number holds exactly. *)
Definition safe_integer (z : Z) : bool :=
  (- (2 ^ 53 - 1) <=? z) && (z <=? 2 ^ 53 - 1).

(** [x.toString()] of a number: the decimal numeral of an integer that the
    number holds exactly. Larger numbers are rounded, and from 1e21 on
    written with an exponent: they are outside the model. *)
Definition number_text (z : Z) : option string :=
  if safe_integer z then Some (pretty z) else None.

(** [x.toString()]: a [TypeError] on null and undefined. The text of a
    date depends on the time zone of the process and is not modelled. *)
Definition toString (v : option value) : M string :=
  match v with
  | None | Some VNull => throw TypeError
  | Some (VStr s) => mret s
  | Some (VNum z) => of_option (number_text z)
  | Some (VOid h) => mret h
  | Some (VDate _) => fun w => (Beyond, w)
  end.

(** ** GET /members *)

(** [{ $regex: search, $options: "i" }] *)
Definition regex_i (search : string) : cond :=
  COps (js_object [("$regex", VStr search); ("$options", VStr "i")]).

Definition members_query (search : string) : query :=
  query_object
    [QOr [QField "First name" (regex_i search);
          QField "Last name" (regex_i search);
          QField "Spouse first name" (regex_i search);
          QField "Spouse last name" (regex_i search);
          QField "City" (regex_i search);
          QField "Chettinad native place" (regex_i search)]].

Definition list_view : list string :=
  ["_id"; "First name"; "Last name"; "Spouse first name"; "Spouse last name";
   "City"; "Chettinad native place"].

(** The query parameters [page] and [limit] are taken when they are the
    numerals of integers, so that [Number(page)] is that integer. This is
    the handler over the patterns of [Regex] and the order of [sort_docs];
    [get_members_in], further down, is the handler over the store's own
    pattern engine and order. *)
Definition get_members (search : option string) (page limit : option Z)
  : M response :=
  let search := default "" search in
  let page := default 1 page in
  let limit := default 20 limit in
  let query := members_query search in
  let skip := (page - 1) * limit in
  results ← find_toArray {| c_filter := query; c_project := list_view;
                            c_sort := "First name";
                            c_skip := Some skip; c_limit := Some limit |};
  mret (res_json (JDocs results)).

(** ** GET /analytics and GET /stats/... *)

(** [{ $ne: null, $ne: "" }], as the object literal the source writes. *)
Definition ne_null_ne_empty : cond :=
  COps (js_object [("$ne", VNull); ("$ne", VStr "")]).

(** The pipeline of the three count-ordered statistics. *)
Definition count_pipeline (f : string) : list stage :=
  [Match (query_object [QField f ne_null_ne_empty]);
   GroupCount f;
   Sort "count" (-1)].

(** The same, limited to the top 10, as /analytics runs it. *)
Definition top10_pipeline (f : string) : list stage :=
  [Match (query_object [QField f ne_null_ne_empty]);
   GroupCount f;
   Sort "count" (-1);
   Limit 10].

Definition year_pipeline : list stage :=
  [Match (query_object [QField "YearSince" ne_null_ne_empty]);
   GroupCount "YearSince";
   Sort "_id" 1].

(** [(item) => ({ name: item._id, count: item.count })] *)
Definition name_count (item : doc) : doc :=
  set_opt "count" (item !! "count") (set_opt "name" (item !! "_id") ∅).

(** [(item) => ({ name: item._id.toString(), count: item.count })] *)
Definition name_string_count (item : doc) : M doc :=
  name ← toString (item !! "_id");
  mret (set_opt "count" (item !! "count") (<["name" := VStr name]> ∅)).

Definition get_analytics : M response :=
  try_catch
    (nativeVillageStats ← aggregate_toArray (top10_pipeline "Chettinad native place");
     cityResidenceStats ← aggregate_toArray (top10_pipeline "City");
     nagaraKovilStats ← aggregate_toArray (top10_pipeline "Kovil");
     yearMovedStats ← aggregate_toArray year_pipeline;
     yearMoved ← mapM name_string_count yearMovedStats;
     mret (res_json (JAnalytics (map name_count nativeVillageStats)
                                (map name_count cityResidenceStats)
                                (map name_count nagaraKovilStats)
                                yearMoved)))
    (fun _ => mret internal_error).

Definition get_stats_native_village : M response :=
  result ← aggregate_toArray (count_pipeline "Chettinad native place");
  mret (res_json (JDocs result)).

Definition get_stats_city : M response :=
  result ← aggregate_toArray (count_pipeline "City");
  mret (res_json (JDocs result)).

Definition get_stats_kovil : M response :=
  result ← aggregate_toArray (count_pipeline "Kovil");
  mret (res_json (JDocs result)).

Definition get_stats_year : M response :=
  result ← aggregate_toArray year_pipeline;
  mret (res_json (JDocs result)).

(** ** PUT /members/:id *)

(** [updateData] is the request body, an object whose values are scalars,
    and [now] the value of [new Date()] when the handler runs. *)
Definition put_member (id : string) (updateData : doc) (now : Z) : M response :=
  try_catch
    (let fieldsToUpdate := delete "_id" updateData in
     let fieldsToUpdate := <["UserUpdated" := VDate now]> fieldsToUpdate in
     oid ← new_ObjectId id;
     matchedCount ← updateOne (query_object [QField "_id" (CEq oid)]) fieldsToUpdate;
     if matchedCount =? 0 then
       mret (res_status_json 404 (JMessage "Member not found"))
     else
       oid' ← new_ObjectId id;
       updatedMember ← findOne (query_object [QField "_id" (CEq oid')]);
       mret (res_json (JUpdated "Profile updated successfully" updatedMember)))
    (fun _ => mret internal_error).

(** ** GET /members/by-category *)

(** A query parameter in a condition: absent and empty are falsy. *)
Definition truthy (p : option string) : bool :=
  match p with
  | Some s => negb (String.eqb s "")
  | None => false
  end.

(** The [switch (category)]: the field each category filters on. *)
Definition category_field (category : string) : option string :=
  if String.eqb category "nativeVillage" then Some "Chettinad native place"
  else if String.eqb category "cityResidence" then Some "City"
  else if String.eqb category "nagaraKovil" then Some "Kovil"
  else if String.eqb category "yearMoved" then Some "YearSince"
  else None.

Definition name_clauses (search : string) : list query :=
  [QField "First name" (regex_i search);
   QField "Last name" (regex_i search);
   QField "Spouse first name" (regex_i search);
   QField "Spouse last name" (regex_i search)].

(** The query object: first the category clause, then, if a search term
    exists, the [$and] of a copy of the object with the [$or] on names. *)
Definition category_query (f value search : string) : query :=
  let query := [QField f (CEq (VStr value))] in
  if negb (String.eqb search "") && negb (String.eqb (trim search) "") then
    query_object
      (query ++ [QAnd [query_object query;
                       query_object [QOr (name_clauses search)]]])
  else query_object query.

Definition category_view : list string :=
  ["_id"; "First name"; "Last name"; "Spouse first name"; "Spouse last name";
   "City"; "Chettinad native place"; "Kovil"; "YearSince"; "Email";
   "Spouse email id"; "Mobile number"; "Spouse mobile number"].

Definition invalid_category : string :=
  "Invalid category. Valid categories: nativeVillage, cityResidence, nagaraKovil, yearMoved".

Definition get_members_by_category (category value search : option string)
  : M response :=
  let search := default "" search in
  if negb (truthy category) || negb (truthy value) then
    mret (res_status_json 400
            (JMessage "Category and value are required parameters"))
  else
    try_catch
      (match category_field (default "" category) with
       | None => mret (res_status_json 400 (JMessage invalid_category))
       | Some f =>
           let query := category_query f (default "" value) search in
           members ← find_toArray {| c_filter := query;
                                     c_project := category_view;
                                     c_sort := "First name";
                                     c_skip := None; c_limit := None |};
           mret (res_json (JDocs members))
       end)
      (fun _ => mret internal_error).

(** A fresh run of a handler on a collection: nothing logged yet. *)
Definition fresh (docs : list doc) : world := {| members := docs; calls := [] |}.
(** ** The vocabulary of the specification *)

(** The fields the member search looks at, and the name fields among them. *)
Definition name_fields : list string :=
  ["First name"; "Last name"; "Spouse first name"; "Spouse last name"].

Definition search_fields : list string :=
  name_fields ++ ["City"; "Chettinad native place"].

(** The field holds a string. *)
Definition is_text (fv : option value) : bool :=
  match fv with
  | Some (VStr _) => true
  | _ => false
  end.

(** A record has text in one of the searched fields. *)
Definition has_text (fields : list string) (d : doc) : bool :=
  existsb (fun f => is_text (d !! f)) fields.

(** One of the name fields of the record contains the term, letter case
    apart. *)
Definition name_contains (t : string) (d : doc) : Prop :=
  exists f s, f ∈ name_fields /\ d !! f = Some (VStr s) /\ ci_substring t s.

(** ** Sample records and collections *)

(** A record with no text in any searched field: an identifier and a
    temple only. *)
Definition kovil_only : doc :=
  js_object [("_id", VOid "64b7f0c2a1d3e4f5a6b7c8d9"); ("Kovil", VStr "Pillaiyarpatti")].

(** A member with a first name and a city. *)
Definition ravi : doc :=
  js_object [("First name", VStr "Ravi"); ("City", VStr "Chennai")].


(** The category names of the specification. *)
Definition valid_categories : list string :=
  ["nativeVillage"; "cityResidence"; "nagaraKovil"; "yearMoved"].

(** A stored member with its identifier. *)
Definition meena : doc :=
  js_object [("_id", VOid "64b7f0c2a1d3e4f5a6b7c8da");
             ("First name", VStr "Meena");
             ("City", VStr "Madurai");
             ("Chettinad native place", VStr "Karaikudi")].

(** An update payload that carries an identifier of its own. *)
Definition payload_with_id : doc :=
  js_object [("_id", VStr "000000000000000000000000");
             ("City", VStr "Austin");
             ("UserUpdated", VStr "never")].

(** ** The vocabulary of the statistics *)

(** A record passes the [$match] of the statistics pipelines unless the
    field holds the empty string. *)
Definition not_empty (f : string) (d : doc) : bool :=
  negb (eq_match (d !! f) (VStr "")).

(** A record has a non-empty value for the field: the field is present,
    not null and not the empty string. *)
Definition has_value (f : string) (d : doc) : bool :=
  match d !! f with
  | None | Some VNull | Some (VStr "") => false
  | Some _ => true
  end.

(** The group rows of a field, before they are ordered. *)
Definition groups (f : string) (docs : list doc) : list doc :=
  map group_row (tally f (List.filter (not_empty f) docs)).

Definition row_count (r : doc) : Z :=
  match r !! "count" with
  | Some (VNum n) => n
  | _ => 0
  end.

Definition total_count (rows : list doc) : Z :=
  foldr (fun r acc => row_count r + acc) 0 rows.

Definition ascending_by (f : string) (rows : list doc) : Prop :=
  Sorted (fun a b => value_le (field_or_null f a) (field_or_null f b)) rows.

Definition descending_by (f : string) (rows : list doc) : Prop :=
  Sorted (fun a b => value_le (field_or_null f b) (field_or_null f a)) rows.

(** The year of a record is a string, or a number that is an integer
    held exactly. *)
Definition year_known (d : doc) : Prop :=
  match d !! "YearSince" with
  | Some (VStr _) => True
  | Some (VNum z) => safe_integer z = true
  | _ => False
  end.

#[global] Instance year_known_dec (d : doc) : Decision (year_known d).
Proof. unfold year_known. destruct (d !! "YearSince") as [[]|]; apply _. Defined.

(** The text of a string or number key, where it has one in the model. *)
Definition key_text (v : value) : option string :=
  match v with
  | VStr s => Some s
  | VNum z => number_text z
  | _ => None
  end.

(** The reshape of a year row whose key is a string or a number. *)
Definition year_name_count (item : doc) : option doc :=
  name ← key_text (field_or_null "_id" item);
  Some (set_opt "count" (item !! "count") (<["name" := VStr name]> ∅)).

(** A record whose native village is null. *)
Definition valli : doc :=
  js_object [("First name", VStr "Valli"); ("Chettinad native place", VNull)].

(** A member with a village, a city, a temple and a year. *)
Definition settler (village city kovil : string) (year : Z) : doc :=
  js_object [("Chettinad native place", VStr village); ("City", VStr city);
             ("Kovil", VStr kovil); ("YearSince", VNum year)].

(** Twelve members from eleven villages, two of them from village "0". *)
Definition twelve_settlers : list doc :=
  map (fun n : nat => settler (pretty n) "Chennai" "Vairavan" (2000 + Z.of_nat n))
      (seq 0 11)
  ++ [settler "0" "Austin" "Vairavan" 1999].

(** A roster of 45 members, named "10" to "54". *)
Definition roster : list doc :=
  map (fun n : nat => js_object [("First name", VStr (pretty n))]) (seq 10 45).

(** ** The handlers of member lookup, photo update and mail *)

(** A JSON scalar of a request body in a condition: [undefined], [null],
    the empty string and 0 are falsy. *)
Definition js_truthy (v : option value) : bool :=
  match v with
  | None | Some VNull => false
  | Some (VStr s) => negb (String.eqb s "")
  | Some (VNum z) => negb (z =? 0)
  | Some _ => true
  end.

(** The bodies these handlers send. *)
Inductive body_json :=
| BWhitelist (isWhitelisted : bool) (message : string)
| BMember (member : doc)
| BMessage (message : string)
| BError (message error : string).

Record reply := {
  code : Z;
  content : body_json
}.

(** [{ $or: [{ "Spouse email id": email }, { Email: email }] }] *)
Definition email_query (email : value) : query :=
  query_object [QOr [QField "Spouse email id" (CEq email);
                     QField "Email" (CEq email)]].

(** POST /check-whitelist, with [email] the property of the request body
    where it is a string, a number or null, or is missing. An email that
    is an object or an array is not covered here: the store reads an
    object in a filter as operators. *)
Definition check_whitelist (email : option value) : M reply :=
  if negb (js_truthy email) then
    mret {| code := 400; content := BWhitelist false "Email is required" |}
  else
    try_catch
      (member ← findOne (email_query (default VNull email));
       match member with
       | Some _ =>
           mret {| code := 200; content := BWhitelist true "Email is whitelisted" |}
       | None =>
           mret {| code := 200;
                   content := BWhitelist false
                                "Email not found in authorized members list" |}
       end)
      (fun _ => mret {| code := 500;
                        content := BWhitelist false "Internal server error" |}).

(** GET /members/get/:id *)
Definition get_member (id : string) : M reply :=
  if negb (ObjectId_isValid id) then
    mret {| code := 400; content := BMessage "Invalid ID format" |}
  else
    try_catch
      (oid ← new_ObjectId id;
       member ← findOne (query_object [QField "_id" (CEq oid)]);
       match member with
       | None => mret {| code := 404; content := BMessage "Not found" |}
       | Some m => mret {| code := 200; content := BMember m |}
       end)
      (fun _ => mret {| code := 500; content := BMessage "Server error" |}).

(** GET /members/by-email/:email *)
Definition get_member_by_email (email : string) : M reply :=
  try_catch
    (member ← findOne (email_query (VStr email));
     match member with
     | None => mret {| code := 404; content := BMessage "Member not found" |}
     | Some m => mret {| code := 200; content := BMember m |}
     end)
    (fun _ => mret {| code := 500; content := BMessage "Internal server error" |}).

(** PUT /members/:id/photo, with [photo_link] the property of the request
    body and [now] the value of [new Date()]. *)
Definition put_member_photo (id : string) (photo_link : option value) (now : Z)
  : M response :=
  if negb (js_truthy photo_link) then
    mret (res_status_json 400 (JMessage "photo_link is required"))
  else
    try_catch
      (oid ← new_ObjectId id;
       matchedCount ← updateOne (query_object [QField "_id" (CEq oid)])
                        (js_object [("photo_link", default VNull photo_link);
                                    ("UserUpdated", VDate now)]);
       if matchedCount =? 0 then
         mret (res_status_json 404 (JMessage "Member not found"))
       else
         oid' ← new_ObjectId id;
         updatedMember ← findOne (query_object [QField "_id" (CEq oid')]);
         mret (res_json (JUpdated "Photo updated successfully" updatedMember)))
      (fun _ => mret internal_error).

(** [s.split(",")] on the code units of a string: the pieces between the
    commas, the empty ones included. *)
Fixpoint split_comma (s : list ascii) : list (list ascii) :=
  match s with
  | [] => [[]]
  | c :: s' =>
      if Ascii.eqb c "," then [] :: split_comma s'
      else match split_comma s' with
           | piece :: pieces => (c :: piece) :: pieces
           | [] => [[c]]
           end
  end.

(** [recipients.split(",").map((e) => e.trim()).filter((e) => e)] *)
Definition to_array (recipients : string) : list string :=
  List.filter (fun e => negb (String.eqb e ""))
    (map (fun piece => trim (string_of_list_ascii piece))
       (split_comma (list_ascii_of_string recipients))).

(** The message handed to the mail service. *)
Record mail := {
  mail_to : list string;
  mail_from : string;
  mail_subject : string;
  mail_html : string
}.

(** A string in a concatenation or template: [undefined] reads
    "undefined". *)
Definition js_text (s : option string) : string := default "undefined" s.

(** POST /send-email, with [recipients], [subject] and [body] the
    properties of the request body where they are strings or missing;
    values of other types are not covered here ([split] is a method of
    strings only). [sendMultiple] stands for the mail service: it answers
    [None] when the message is accepted and the text of the error when it
    fails. The result is the reply and the messages handed to the
    service. *)
Definition send_email (sendMultiple : mail -> option string)
    (recipients subject body : option string) : reply * list mail :=
  if negb (truthy recipients) || negb (truthy body) then
    ({| code := 400; content := BMessage "Recipients and body are required" |}, [])
  else
    let toArray := to_array (default "" recipients) in
    let msg := {| mail_to := toArray;
                  mail_from := "NAAM <shree.manickaraja@gmail.com>";
                  mail_subject :=
                    "NAAM - A New Event Has Been Posted - " +:+ js_text subject;
                  mail_html := "<p>" +:+ default "" body +:+ "</p>" |} in
    match sendMultiple msg with
    | None => ({| code := 200; content := BMessage "Emails sent successfully" |}, [msg])
    | Some error =>
        ({| code := 500; content := BError "Failed to send email" error |}, [msg])
    end.

(** ** The vocabulary of the further properties *)

(** A record carries the address as its own or its spouse's email. *)
Definition has_email (email : value) (d : doc) : bool :=
  eq_match (d !! "Spouse email id") email || eq_match (d !! "Email") email.

(** The first record of a collection with a given identifier. *)
Definition by_id (oid : value) (docs : list doc) : option doc :=
  head (List.filter (fun d => eq_match (d !! "_id") oid) docs).

(** [trim] on the code units. *)
Definition trim_chars (l : list ascii) : list ascii :=
  rev (drop_space (rev (drop_space l))).

(** A text has no white space at either end. *)
Definition trimmed (s : string) : Prop :=
  drop_space (list_ascii_of_string s) = list_ascii_of_string s /\
  drop_space (rev (list_ascii_of_string s)) = rev (list_ascii_of_string s).

(** An address as the mail handler keeps it: not empty, no white space
    around it, no comma in it. *)
Definition clean_address (s : string) : Prop :=
  s <> "" /\ trimmed s /\ ~ In ","%char (list_ascii_of_string s).

(** [l.join(", ")] *)
Fixpoint join_comma (l : list string) : string :=
  match l with
  | [] => ""
  | [a] => a
  | a :: l' => a +:+ ", " +:+ join_comma l'
  end.

(** The number of records of a list whose field reads as a given key. *)
Definition count_key (f : string) (k : value) (docs : list doc) : Z :=
  Z.of_nat (length (List.filter (fun d => bool_decide (field_or_null f d = k)) docs)).

(** A member with its email and its spouse's. *)
Definition kannan : doc :=
  js_object [("_id", VOid "64b7f0c2a1d3e4f5a6b7c8db");
             ("First name", VStr "Kannan");
             ("Email", VStr "kannan@example.org");
             ("Spouse email id", VStr "selvi@example.org");
             ("Mobile number", VStr "5550100")].

(** One of the given fields of the record contains the term, letter case
    apart. *)
Definition field_contains (fields : list string) (t : string) (d : doc) : Prop :=
  exists f s, f ∈ fields /\ d !! f = Some (VStr s) /\ ci_substring t s.

(** A computation that leaves the collection as it found it. *)
Definition read_only {A} (m : M A) : Prop :=
  forall w, members (snd (m w)) = members w.

(** The count a frequency table holds for a key, 0 where it has none. *)
Fixpoint tbl_get (k : value) (tbl : list (value * Z)) : Z :=
  match tbl with
  | [] => 0
  | (k', n) :: tbl' => if decide (k = k') then n else tbl_get k tbl'
  end.


(** ** GET /members over the store's own pattern engine and order *)

(** What the store makes of a pattern and its options: a test on strings
    where it accepts the pattern, a refusal where the pattern is not well
    formed. [Unknown] is for a description of the store that leaves a
    pattern open. *)
Inductive verdict :=
| Accepts (test : string -> bool)
| Rejects
| Unknown.

Definition and_then {A B} (o : outcome A) (k : A -> outcome B) : outcome B :=
  match o with
  | Return a => k a
  | Throw e => Throw e
  | Beyond => Beyond
  end.

(** The text of [$options], empty where there is none. *)
Definition options_text (o : option value) : option string :=
  match o with
  | None => Some ""
  | Some (VStr s) => Some s
  | Some _ => None
  end.

Section Store.

(** The pattern engine of the store, which takes a pattern and its
    options, and the order in which the store returns the documents of a
    sorted query. *)
Variable engine : string -> string -> verdict.
Variable order : cursor -> list doc -> list doc.

(** An operator object, as [eval_ops] reads it, with the pattern handed
    to the engine: a pattern the engine rejects makes the query fail. *)
Definition eval_ops_in (ops : doc) (fv : option value) : outcome bool :=
  if bool_decide (dom ops ⊆ known_ops) then
    let ne :=
      match ops !! "$ne" with
      | Some a => negb (eq_match fv a)
      | None => true
      end in
    match ops !! "$regex" with
    | None => Return ne
    | Some (VStr p) =>
        match options_text (ops !! "$options") with
        | Some o =>
            match engine p o with
            | Accepts test =>
                Return (ne && match fv with
                              | Some (VStr s) => test s
                              | _ => false
                              end)
            | Rejects => Throw MongoServerError
            | Unknown => Beyond
            end
        | None => Beyond
        end
    | Some _ => Beyond
    end
  else Beyond.

Definition eval_cond_in (c : cond) (fv : option value) : outcome bool :=
  match c with
  | CEq v => Return (eq_match fv v)
  | COps ops => eval_ops_in ops fv
  end.

Fixpoint eval_in (q : query) (d : doc) : outcome bool :=
  match q with
  | QField f c => eval_cond_in c (d !! f)
  | QAnd qs =>
      (fix all (qs : list query) : outcome bool :=
         match qs with
         | [] => Return true
         | q' :: qs' =>
             and_then (eval_in q' d) (fun b =>
             and_then (all qs') (fun bs => Return (b && bs)))
         end) qs
  | QOr qs =>
      (fix any (qs : list query) : outcome bool :=
         match qs with
         | [] => Return false
         | q' :: qs' =>
             and_then (eval_in q' d) (fun b =>
             and_then (any qs') (fun bs => Return (b || bs)))
         end) qs
  end.

Fixpoint select_in (q : query) (docs : list doc) : outcome (list doc) :=
  match docs with
  | [] => Return []
  | d :: docs' =>
      and_then (eval_in q d) (fun b =>
      and_then (select_in q docs') (fun rest =>
      Return (if b : bool then d :: rest else rest)))
  end.

(** [find(q).project(..).sort({f: 1}).skip(s).limit(n).toArray()], as
    [find_toArray], with the sorted documents in the store's order. The
    store reads the query, and rejects a pattern, before it reads the
    collection. *)
Definition find_toArray_in (c : cursor) : M (list doc) :=
  _ ← log_call (CallFind c);
  (fun w =>
    if bool_decide (default 0 (c_skip c) < 0) then (Throw MongoServerError, w)
    else if bool_decide (default 0 (c_limit c) < 0) then (Beyond, w)
    else
      match and_then (eval_in (c_filter c) ∅)
                     (fun _ => select_in (c_filter c) (members w)) with
      | Return found =>
          let sorted := order c found in
          let skipped := drop (Z.to_nat (default 0 (c_skip c))) sorted in
          let limited := apply_limit (default 0 (c_limit c)) skipped in
          (Return (map (project (c_project c)) limited), w)
      | Throw e => (Throw e, w)
      | Beyond => (Beyond, w)
      end) : M (list doc).

(** GET /members. The handler has no [try]: what the store throws is not
    answered. *)
Definition get_members_in (search : option string) (page limit : option Z)
  : M response :=
  let search := default "" search in
  let page := default 1 page in
  let limit := default 20 limit in
  let query := members_query search in
  let skip := (page - 1) * limit in
  results ← find_toArray_in {| c_filter := query; c_project := list_view;
                               c_sort := "First name";
                               c_skip := Some skip; c_limit := Some limit |};
  mret (res_json (JDocs results)).

End Store.

(** The store sorts: what it returns for a sorted query is the documents
    found, in ascending order of the sort field. The order among documents
    with equal keys is left to it. *)
Definition sorts (order : cursor -> list doc -> list doc) : Prop :=
  forall c found,
    Sorted (by_field (c_sort c) 1) (order c found) /\ order c found ≡ₚ found.

(** A record matches a search term: one of the six searched fields holds a
    text that the term, read as a pattern, accepts. *)
Definition matches_search (test : string -> bool) (d : doc) : bool :=
  existsb (fun f => match d !! f with
                    | Some (VStr s) => test s
                    | _ => false
                    end) search_fields.

(** A pattern whose only metacharacters are opening parentheses, with at
    least one of them: a group is opened and never closed, and the store
    rejects the pattern. *)
Definition unclosed_group (p : string) : bool :=
  existsb (fun c => Ascii.eqb c "(") (list_ascii_of_string p) &&
  forallb (fun c => Ascii.eqb c "(" || negb (Regex.is_meta c))
          (list_ascii_of_string p).

(** The engine as far as this development describes it: with no option
    or with "i", the patterns of [Regex] and the patterns with an unclosed
    group. *)
Definition fragment_engine (p o : string) : verdict :=
  if String.eqb o "i" || String.eqb o "" then
    match Regex.parse (list_ascii_of_string p) with
    | Some r =>
        Accepts (fun s => Regex.search (String.eqb o "i") r (list_ascii_of_string s))
    | None => if unclosed_group p then Rejects else Unknown
    end
  else Unknown.

(** The order of [sort_docs]. *)
Definition merge_order (c : cursor) (found : list doc) : list doc :=
  sort_docs (c_sort c) 1 found.

(** ** Further sample records *)

(** A member without a native village. *)
Definition newcomer (city : string) (year : Z) : doc :=
  js_object [("City", VStr city); ("Kovil", VStr "Vairavan");
             ("YearSince", VNum year)].

(** Eleven villages: "0" to "9" with two members each and "10" with one;
    and three members without a village. *)
Definition eleven_villages : list doc :=
  flat_map (fun n : nat =>
              [settler (pretty n) "Chennai" "Vairavan" (2000 + Z.of_nat n);
               settler (pretty n) "Chennai" "Vairavan" (2000 + Z.of_nat n)])
           (seq 0 10)
  ++ [settler "10" "Chennai" "Vairavan" 2010]
  ++ [newcomer "Austin" 1998; newcomer "Austin" 1999; newcomer "Austin" 1999].

(** The groups of the records that have a value for the field, in order
    of first occurrence. *)
Definition groups_with_value (f : string) (docs : list doc) : list doc :=
  map group_row (tally f (List.filter (has_value f) docs)).

(** An update payload with an empty field name. *)
Definition payload_empty_key : doc :=
  js_object [("", VStr "x"); ("City", VStr "Austin")].

(** An update payload whose key is a path through the city. *)
Definition payload_with_path : doc :=
  js_object [("City.zip", VStr "73301")].

(** The keys of an update payload are plain field names. *)
Definition plain_payload (updateData : doc) : Prop :=
  map_Forall (fun k _ => plain_key k = true) updateData.

(** An entry of the combined view. *)
Definition entry (name : value) (count : Z) : doc :=
  js_object [("name", name); ("count", VNum count)].
(** * Properties *)

(** ** The comparison order is a total preorder *)

Section Order.

Lemma string_compare_trans (a b c : string) :
  String.compare a b <> Gt -> String.compare b c <> Gt -> String.compare a c <> Gt.
Proof.
  revert b c. induction a as [|x a IH]; intros [|y b] [|z c]; simpl; try congruence.
  unfold Ascii.compare.
  destruct (N.compare_spec (N_of_ascii x) (N_of_ascii y)) as [Hxy|Hxy|Hxy];
    destruct (N.compare_spec (N_of_ascii y) (N_of_ascii z)) as [Hyz|Hyz|Hyz];
    try congruence; intros H1 H2.
  - rewrite Hxy, Hyz, N.compare_refl. by apply IH with b.
  - rewrite Hxy, (proj2 (N.compare_lt_iff _ _) Hyz). discriminate.
  - rewrite <- Hyz, (proj2 (N.compare_lt_iff _ _) Hxy). discriminate.
  - rewrite (proj2 (N.compare_lt_iff (N_of_ascii x) (N_of_ascii z))) by lia.
    discriminate.
Qed.

Lemma string_leb_trans (a b c : string) :
  String.leb a b = true -> String.leb b c = true -> String.leb a c = true.
Proof.
  unfold String.leb. intros H1 H2.
  pose proof (string_compare_trans a b c) as H.
  destruct (String.compare a b), (String.compare b c), (String.compare a c);
    try done; exfalso; apply H; done.
Qed.

Lemma value_le_total (a b : value) : value_le a b \/ value_le b a.
Proof.
  unfold value_le.
  destruct a, b; simpl; auto; try apply String.leb_total; lia.
Qed.

Lemma value_le_trans (a b c : value) : value_le a b -> value_le b c -> value_le a c.
Proof.
  unfold value_le.
  destruct a, b, c; simpl; try done; try lia; apply string_leb_trans.
Qed.

#[global] Instance by_field_total f dir : Total (by_field f dir).
Proof.
  intros a b. unfold by_field. destruct (0 <=? dir); apply value_le_total.
Qed.

#[global] Instance by_field_trans f dir : Transitive (by_field f dir).
Proof.
  intros a b c. unfold by_field.
  destruct (0 <=? dir); eauto using value_le_trans.
Qed.

Lemma sort_docs_Sorted f dir docs : Sorted (by_field f dir) (sort_docs f dir docs).
Proof. apply (Sorted_merge_sort (by_field f dir)). Qed.

Lemma sort_docs_StronglySorted f dir docs :
  StronglySorted (by_field f dir) (sort_docs f dir docs).
Proof. apply (StronglySorted_merge_sort (by_field f dir)). Qed.

Lemma sort_docs_Permutation f dir docs : sort_docs f dir docs ≡ₚ docs.
Proof. apply (merge_sort_Permutation (by_field f dir)). Qed.

End Order.

(** ** Operator objects and the conditions of the handlers *)

Lemma eval_ne_null_ne_empty (fv : option value) :
  eval_cond ne_null_ne_empty fv = Some (negb (eq_match fv (VStr ""))).
Proof. reflexivity. Qed.

Lemma eval_regex_i (search : string) (fv : option value) :
  eval_cond (regex_i search) fv =
  match fv with
  | Some (VStr s) => Regex.test search true s
  | _ => _ ← Regex.parse (list_ascii_of_string search); Some false
  end.
Proof.
  unfold regex_i, eval_cond, eval_ops.
  set (ops := js_object _).
  assert (Hdom : bool_decide (dom ops ⊆ known_ops) = true) by (vm_compute; reflexivity).
  assert (Hre : ops !! "$regex" = Some (VStr search)) by reflexivity.
  assert (Hne : ops !! "$ne" = None) by reflexivity.
  assert (Hop : ops !! "$options" = Some (VStr "i")) by reflexivity.
  rewrite Hdom, Hre, Hne, Hop. 
  destruct fv as [[]|]; try reflexivity.
  rewrite bool_decide_eq_true_2 by done.
  destruct (Regex.test search true s); reflexivity.
Qed.

(** ** Patterns without metacharacters search for a substring *)

Section PlainPatterns.

Lemma dot_is_meta (c : ascii) : Ascii.eqb c "." = true -> Regex.is_meta c = true.
Proof. intros H. apply Ascii.eqb_eq in H. by subst. Qed.

Lemma parse_plain (p : list ascii) :
  Forall (fun c => Regex.is_meta c = false) p ->
  Regex.parse p = Some (map Regex.Lit p).
Proof.
  induction 1 as [|c p Hc _ IH]; [done|]. simpl.
  destruct (Ascii.eqb c ".") eqn:Hdot.
  - apply dot_is_meta in Hdot. congruence.
  - by rewrite Hc, IH.
Qed.

Lemma lower_chars (s : string) :
  list_ascii_of_string (lower s) = map to_lower (list_ascii_of_string s).
Proof. unfold lower. apply list_ascii_of_string_of_list_ascii. Qed.

Lemma match_here_lit (t s : list ascii) :
  Regex.match_here true (map Regex.Lit t) s = true <->
  exists post, map to_lower s = map to_lower t ++ post.
Proof.
  revert s. induction t as [|c t IH]; intros s; simpl.
  - split; [eauto|done].
  - destruct s as [|x s]; simpl.
    + split; [done|]. by intros [post ?].
    + rewrite andb_true_iff, Ascii.eqb_eq, IH. split.
      * intros [Hc [post Hp]]. exists post. by rewrite Hc, Hp.
      * intros [post Hp]. injection Hp as -> Hp. eauto.
Qed.

Lemma search_lit (t s : list ascii) :
  Regex.search true (map Regex.Lit t) s = true <->
  exists pre post, map to_lower s = pre ++ map to_lower t ++ post.
Proof.
  induction s as [|x s IH]; simpl; rewrite orb_true_iff, match_here_lit.
  - split.
    + intros [[post Hp]|?]; [|done]. by exists [], post.
    + intros (pre & post & Hp). left. destruct pre; [|done]. eauto.
  - rewrite IH. split.
    + intros [[post Hp]|(pre & post & Hp)].
      * by exists [], post.
      * exists (to_lower x :: pre), post. simpl. by rewrite Hp.
    + intros (pre & post & Hp). destruct pre as [|y pre]; simpl in Hp.
      * left. eauto.
      * right. injection Hp as _ Hp. eauto.
Qed.

(** On a plain term the pattern test is the case-folded substring test. *)
Lemma test_plain (t s : string) :
  Regex.plain t ->
  exists b, Regex.test t true s = Some b /\ (b = true <-> ci_substring t s).
Proof.
  intros Hp. unfold Regex.test. rewrite (parse_plain _ Hp). simpl.
  eexists; split; [done|].
  unfold ci_substring. rewrite !lower_chars. apply search_lit.
Qed.

Lemma test_empty (ci : bool) (s : string) : Regex.test "" ci s = Some true.
Proof. unfold Regex.test. simpl. by destruct (list_ascii_of_string s). Qed.

End PlainPatterns.

(** ** Evaluating the queries of the handlers *)

Section Queries.

Lemma eval_QOr_cons q qs d :
  eval (QOr (q :: qs)) d = b ← eval q d; bs ← eval (QOr qs) d; Some (b || bs).
Proof. reflexivity. Qed.

Lemma eval_QAnd_cons q qs d :
  eval (QAnd (q :: qs)) d = b ← eval q d; bs ← eval (QAnd qs) d; Some (b && bs).
Proof. reflexivity. Qed.

(** The [$or] of the same pattern on several fields. *)
Lemma eval_any_regex (t : string) (r : list Regex.atom) (fields : list string) (d : doc) :
  Regex.parse (list_ascii_of_string t) = Some r ->
  eval (QOr (map (fun f => QField f (regex_i t)) fields)) d =
  Some (existsb (fun f => match d !! f with
                          | Some (VStr s) => Regex.search true r (list_ascii_of_string s)
                          | _ => false
                          end) fields).
Proof.
  intros Hr. induction fields as [|f fields IH]; [done|].
  cbn [map]. rewrite eval_QOr_cons, IH. cbn [eval]. rewrite eval_regex_i.
  unfold Regex.test. rewrite Hr. cbn [existsb].
  destruct (d !! f) as [[]|]; reflexivity.
Qed.

Lemma select_filter (q : query) (p : doc -> bool) (docs : list doc) :
  (forall d, eval q d = Some (p d)) -> select q docs = Some (List.filter p docs).
Proof.
  intros Hq. induction docs as [|d docs IH]; [done|].
  simpl. rewrite Hq, IH. simpl. by destruct (p d).
Qed.

Lemma filter_all {A} (p : A -> bool) (l : list A) :
  Forall (fun x => p x = true) l -> List.filter p l = l.
Proof. induction 1 as [|x l Hx _ IH]; [done|]. simpl. by rewrite Hx, IH. Qed.

(** With the empty term the member search keeps the records that have
    text in a searched field. *)
Lemma eval_members_query_empty (d : doc) :
  eval (members_query "") d = Some (has_text search_fields d).
Proof.
  change (members_query "")
    with (query_object [QOr (map (fun f => QField f (regex_i "")) search_fields)]).
  unfold query_object. rewrite eval_QAnd_cons, (eval_any_regex "" []) by done.
  cbn [eval mbind option_bind]. rewrite andb_true_r. f_equal.
  unfold has_text. induction search_fields as [|f fields IH]; [done|].
  cbn [existsb]. rewrite IH. f_equal.
  destruct (d !! f) as [[]|]; try done.
  simpl. by destruct (list_ascii_of_string s).
Qed.

End Queries.

(** ** Running the store calls *)

Section StoreCalls.

Lemma find_toArray_run (c : cursor) (w : world) (found : list doc) :
  is_Some (eval (c_filter c) ∅) ->
  select (c_filter c) (members w) = Some found ->
  0 <= default 0 (c_skip c) ->
  0 <= default 0 (c_limit c) ->
  find_toArray c w =
  (Return (map (project (c_project c))
             (apply_limit (default 0 (c_limit c))
                (drop (Z.to_nat (default 0 (c_skip c)))
                   (sort_docs (c_sort c) 1 found)))),
   {| members := members w; calls := calls w ++ [CallFind c] |}).
Proof.
  intros [b Hq] Hsel Hskip Hlimit.
  unfold find_toArray, mbind, M_bind, bind, log_call. simpl.
  rewrite !bool_decide_eq_false_2 by lia. by rewrite Hq, Hsel.
Qed.

Lemma aggregate_toArray_run (p : list stage) (w : world) (rows : list doc) :
  run_pipeline p (members w) = Some rows ->
  aggregate_toArray p w =
  (Return rows, {| members := members w; calls := calls w ++ [CallAggregate p] |}).
Proof.
  intros Hp. unfold aggregate_toArray, mbind, M_bind, bind, log_call, of_option.
  simpl. by rewrite Hp.
Qed.

End StoreCalls.

(** ** GET /members with an empty search term *)

(** C2, as stated, fails: the member search with the empty term does not
    match a record that has no text in any of the six searched fields, so
    on the one-record set it returns the empty sequence. *)
Lemma C2_counterexample :
  eval (members_query "") kovil_only = Some false /\
  select (members_query "") [kovil_only] = Some [] /\
  select (members_query "") [kovil_only] <> Some [kovil_only].
Proof. repeat split; [reflexivity..|discriminate]. Qed.

(** C2 (amended): for every record set R whose records each have text in
    at least one of the six searched fields, the member search with the
    empty term matches every record of R: the predicate alone returns
    exactly R. *)
Theorem C2_empty_search_returns_text_records (R : list doc) :
  Forall (fun d => has_text search_fields d = true) R ->
  select (members_query "") R = Some R.
Proof.
  intros HR.
  rewrite (select_filter _ (has_text search_fields)) by apply eval_members_query_empty.
  by rewrite filter_all.
Qed.

Lemma C2_witness : select (members_query "") [ravi; ravi] = Some [ravi; ravi].
Proof.
  apply (C2_empty_search_returns_text_records [ravi; ravi]).
  repeat constructor.
Defined.

(** ** GET /members/by-category *)

Section ByCategory.

Lemma trim_nonempty (search : string) : trim search <> "" -> search <> "".
Proof. intros H ->. by apply H. Qed.

Lemma has_search_true (search : string) :
  trim search <> "" ->
  negb (String.eqb search "") && negb (String.eqb (trim search) "") = true.
Proof.
  intros H. pose proof (trim_nonempty _ H) as H'.
  apply String.eqb_neq in H, H'. by rewrite H, H'.
Qed.

Lemma eq_match_str (fv : option value) (s : string) :
  eq_match fv (VStr s) = true <-> fv = Some (VStr s).
Proof.
  unfold eq_match. rewrite bool_decide_eq_true.
  destruct fv; simpl; split; congruence.
Qed.

(** The query of a request with a term that is not blank: the category
    equality and the pattern on one of the four name fields. *)
Lemma eval_category_query (f value search : string) (r : list Regex.atom) (d : doc) :
  trim search <> "" ->
  Regex.parse (list_ascii_of_string search) = Some r ->
  eval (category_query f value search) d =
  Some (eq_match (d !! f) (VStr value) &&
        existsb (fun g => match d !! g with
                          | Some (VStr s) => Regex.search true r (list_ascii_of_string s)
                          | _ => false
                          end) name_fields).
Proof.
  intros Ht Hr. unfold category_query. rewrite has_search_true by done.
  change (name_clauses search)
    with (map (fun g => QField g (regex_i search)) name_fields).
  unfold query_object. cbn [app].
  rewrite !eval_QAnd_cons, (eval_any_regex search r) by done.
  cbn [eval eval_cond mbind option_bind].
  f_equal. destruct (eq_match _ _), (existsb _ _); reflexivity.
Qed.

(** A blank term is no term: the category equality alone. *)
Lemma eval_category_query_blank (f value search : string) (d : doc) :
  trim search = "" ->
  eval (category_query f value search) d = Some (eq_match (d !! f) (VStr value)).
Proof.
  intros Ht. unfold category_query. rewrite Ht. simpl.
  rewrite andb_false_r. simpl. by rewrite andb_true_r.
Qed.

Lemma name_match_plain (t : string) (d : doc) :
  existsb (fun g => match d !! g with
                    | Some (VStr s) =>
                        Regex.search true (map Regex.Lit (list_ascii_of_string t))
                          (list_ascii_of_string s)
                    | _ => false
                    end) name_fields = true
  <-> name_contains t d.
Proof.
  rewrite existsb_exists. unfold name_contains, ci_substring. split.
  - intros (g & Hg & Hm). destruct (d !! g) as [[| s | | |]|] eqn:Hd; try done.
    exists g, s. rewrite list_elem_of_In, !lower_chars.
    by rewrite <- search_lit.
  - intros (g & s & Hg & Hd & Hsub). exists g.
    rewrite <- list_elem_of_In, Hd. split; [done|].
    rewrite !lower_chars in Hsub. by apply search_lit.
Qed.

Lemma category_field_nonempty (category f : string) :
  category_field category = Some f -> category <> "".
Proof. by intros H ->. Qed.

End ByCategory.

(** C3, as stated, fails for two kinds of non-empty term. A term of white
    space only is treated as no term: the request for city "Chennai" with
    the term " " returns a Chennai member none of whose names contains a
    space. And the term is a pattern, not a literal: with the term "." the
    same member is returned, though none of its names contains a dot. *)
Lemma C3_counterexample :
  (fst (get_members_by_category (Some "cityResidence") (Some "Chennai") (Some " ")
          (fresh [ravi]))
   = Return (res_json (JDocs [ravi]))
   /\ " " <> "" /\ ~ name_contains " " ravi) /\
  (fst (get_members_by_category (Some "cityResidence") (Some "Chennai") (Some ".")
          (fresh [ravi]))
   = Return (res_json (JDocs [ravi]))
   /\ "." <> "" /\ ~ name_contains "." ravi).
Proof.
  assert (Hno : forall t c, list_ascii_of_string (lower t) = [c] ->
                 ~ In c (list_ascii_of_string "ravi") -> ~ name_contains t ravi).
  { intros t c Ht Hc (g & s & Hg & Hd & pre & post & Hsub).
    rewrite Ht in Hsub.
    assert (Hs : s = "Ravi").
    { rewrite list_elem_of_In in Hg. simpl in Hg.
      destruct Hg as [<-|[<-|[<-|[<-|[]]]]]; vm_compute in Hd; congruence. }
    subst s. apply Hc. change (list_ascii_of_string "ravi")
      with (list_ascii_of_string (lower "Ravi")).
    rewrite Hsub. apply in_or_app. right. by left. }
  split; (split; [reflexivity|split; [discriminate|]]).
  - apply (Hno " " " "%char); [reflexivity|]. simpl. intuition discriminate.
  - apply (Hno "." "."%char); [reflexivity|]. simpl. intuition discriminate.
Qed.

(** C3 (amended): for every category among the four, every value and
    every search term that has a character other than white space and no
    pattern metacharacter, the by-category request answers with the
    records, sorted by first name and projected to the category view,
    that are exactly those whose category-selected field equals the value
    and one of whose four name fields contains the term, letter case
    apart; city and native village are not consulted by the text match. *)
Theorem C3_category_and_name_match
  (category value search f : string) (docs : list doc) :
  category_field category = Some f ->
  value <> "" ->
  trim search <> "" ->
  Regex.plain search ->
  exists found,
    fst (get_members_by_category (Some category) (Some value) (Some search) (fresh docs))
    = Return (res_json (JDocs (map (project category_view)
                                 (sort_docs "First name" 1 found)))) /\
    forall d, d ∈ found <->
              d ∈ docs /\ d !! f = Some (VStr value) /\ name_contains search d.
Proof.
  intros Hf Hv Ht Hp.
  pose proof (category_field_nonempty _ _ Hf) as Hc.
  pose proof (parse_plain _ Hp) as Hr.
  set (p := fun d : doc =>
              eq_match (d !! f) (VStr value) &&
              existsb (fun g => match d !! g with
                                | Some (VStr s) =>
                                    Regex.search true
                                      (map Regex.Lit (list_ascii_of_string search))
                                      (list_ascii_of_string s)
                                | _ => false
                                end) name_fields).
  exists (List.filter p docs). split.
  - unfold get_members_by_category, truthy.
    apply String.eqb_neq in Hc, Hv. rewrite Hc, Hv. simpl.
    unfold try_catch. rewrite Hf. unfold mbind, M_bind, bind.
    erewrite find_toArray_run; [reflexivity| | |simpl; lia..].
    + simpl. erewrite eval_category_query by done. by eexists.
    + simpl. apply select_filter. intros d. by apply eval_category_query.
  - intros d. rewrite !list_elem_of_In, filter_In. unfold p.
    rewrite andb_true_iff, eq_match_str, name_match_plain. tauto.
Qed.

Lemma C3_witness :
  exists found,
    fst (get_members_by_category (Some "cityResidence") (Some "Chennai") (Some "rav")
           (fresh [ravi; kovil_only]))
    = Return (res_json (JDocs (map (project category_view)
                                 (sort_docs "First name" 1 found)))) /\
    forall d, d ∈ found <->
              d ∈ [ravi; kovil_only] /\ d !! "City" = Some (VStr "Chennai")
              /\ name_contains "rav" d.
Proof.
  apply (C3_category_and_name_match "cityResidence" "Chennai" "rav" "City").
  - reflexivity.
  - discriminate.
  - discriminate.
  - repeat constructor.
Defined.

(** C5: a by-category request whose category name is none of
    nativeVillage, cityResidence, nagaraKovil, yearMoved (or is missing) is
    answered with status 400 and a message that says what is wrong, and
    the world is as before: no call on the member store was made. *)
Theorem C5_unknown_category_is_client_error
  (category value search : option string) (w : world) :
  (forall c, category = Some c -> c ∉ valid_categories) ->
  get_members_by_category category value search w =
  (Return (res_status_json 400
             (JMessage (if truthy category && truthy value then invalid_category
                        else "Category and value are required parameters"))),
   w).
Proof.
  intros Hc. unfold get_members_by_category.
  destruct (truthy category) eqn:Htc; [|done].
  destruct (truthy value) eqn:Htv; [|done].
  simpl. destruct category as [c|]; [|done]. simpl.
  assert (Hnone : category_field c = None).
  { specialize (Hc c eq_refl). unfold category_field.
    repeat match goal with
           | |- context [String.eqb c ?s] =>
               destruct (String.eqb_spec c s) as [->|_];
               [exfalso; apply Hc; unfold valid_categories;
                rewrite !elem_of_cons; tauto|]
           end.
    done. }
  unfold try_catch. by rewrite Hnone.
Qed.

Lemma C5_witness :
  get_members_by_category (Some "foo") (Some "Chennai") None (fresh [ravi]) =
  (Return (res_status_json 400 (JMessage invalid_category)), fresh [ravi]).
Proof.
  apply (C5_unknown_category_is_client_error (Some "foo") (Some "Chennai") None).
  intros c Hc. injection Hc as <-. unfold valid_categories.
  rewrite !not_elem_of_cons. repeat split; [discriminate..|apply not_elem_of_nil].
Defined.

(** ** PUT /members/:id *)

Section Update.

Lemma eval_by_id (oid : value) (d : doc) :
  eval (query_object [QField "_id" (CEq oid)]) d = Some (eq_match (d !! "_id") oid).
Proof. simpl. by rewrite andb_true_r. Qed.

Lemma eq_match_oid (fv : option value) (hex : string) :
  eq_match fv (VOid hex) = true <-> fv = Some (VOid hex).
Proof.
  unfold eq_match. rewrite bool_decide_eq_true.
  destruct fv; simpl; split; congruence.
Qed.

Lemma eq_match_oid_false (fv : option value) (hex : string) :
  fv <> Some (VOid hex) -> eq_match fv (VOid hex) = false.
Proof.
  intros H. destruct (eq_match fv (VOid hex)) eqn:E; [|done].
  by apply eq_match_oid in E.
Qed.

Lemma plain_key_nonempty (set : doc) :
  map_Forall (fun k _ => plain_key k = true) set -> set !! "" = None.
Proof.
  intros H. destruct (set !! "") as [v|] eqn:E; [|done].
  by apply H in E.
Qed.

(** The fields the handler writes are plain when the payload's are. *)
Lemma plain_fields (updateData : doc) (now : Z) :
  plain_payload updateData ->
  map_Forall (fun k _ => plain_key k = true)
    (<["UserUpdated" := VDate now]> (delete "_id" updateData)).
Proof.
  intros H. apply map_Forall_insert_2; [done|].
  intros k v Hk. apply lookup_delete_Some in Hk as [_ Hk]. by apply H in Hk.
Qed.

Lemma apply_set_plain (set d : doc) :
  map_Forall (fun k _ => plain_key k = true) set -> apply_set set d = Written (set ∪ d).
Proof. intros H. unfold apply_set. by rewrite bool_decide_eq_true_2. Qed.

Lemma update_first_miss (q : query) (set : doc) (docs : list doc) :
  map_Forall (fun k _ => plain_key k = true) set ->
  Forall (fun d => eval q d = Some false) docs ->
  update_first q set docs = Return (docs, 0).
Proof.
  intros Hset. induction 1 as [|d docs Hd _ IH]; simpl.
  - by rewrite bool_decide_eq_true_2.
  - by rewrite Hd, IH.
Qed.

(** The update of a collection whose first match is [d]. *)
Lemma update_first_at (q : query) (set : doc) (pre post : list doc) (d : doc) :
  Forall (fun x => eval q x = Some false) pre ->
  eval q d = Some true ->
  update_first q set (pre ++ d :: post) =
  match apply_set set d with
  | Written d' => Return (pre ++ d' :: post, 1)
  | Refused => Throw MongoServerError
  | Unmodelled => Beyond
  end.
Proof.
  intros Hpre Hd. induction Hpre as [|x pre Hx _ IH]; simpl.
  - rewrite Hd. by destruct (apply_set set d).
  - rewrite Hx, IH. by destruct (apply_set set d).
Qed.

Lemma update_first_hit (q : query) (set : doc) (pre post : list doc) (d : doc) :
  map_Forall (fun k _ => plain_key k = true) set ->
  Forall (fun x => eval q x = Some false) pre ->
  eval q d = Some true ->
  update_first q set (pre ++ d :: post) = Return (pre ++ (set ∪ d) :: post, 1).
Proof.
  intros Hset Hpre Hd. by rewrite update_first_at, apply_set_plain.
Qed.

Lemma new_ObjectId_valid (id : string) (w : world) :
  ObjectId_isValid id = true -> new_ObjectId id w = (Return (VOid (lower id)), w).
Proof. intros H. unfold new_ObjectId. by rewrite H. Qed.

(** A malformed identifier: [new ObjectId] throws, the handler answers
    500, and neither the collection nor the log changes. *)
Lemma put_member_malformed_id (id : string) (updateData : doc) (now : Z) (w : world) :
  ObjectId_isValid id = false ->
  put_member id updateData now w = (Return internal_error, w).
Proof.
  intros H. unfold put_member, try_catch, mbind, M_bind, bind, new_ObjectId.
  by rewrite H.
Qed.

End Update.

(** C9, as stated, fails where the store is not asked, or refuses what
    it is asked. The identifier "xyz" matches no stored record and is not
    a store identifier at all: the request is not answered 404, and no
    call reaches the store. A well-formed identifier that no record has,
    with a payload that holds an empty field name: the store refuses the
    update, and the request is not answered 404 either. In both the
    collection is unchanged. *)
Lemma C9_counterexample :
  put_member "xyz" payload_with_id 1700000000000 (fresh [meena; ravi])
  = (Return (res_status_json 500 (JMessage "Internal server error")),
     fresh [meena; ravi]) /\
  ObjectId_isValid "64B7F0C2A1D3E4F5A6B7C8D9" = true /\
  Forall (fun d => d !! "_id" <> Some (VOid (lower "64B7F0C2A1D3E4F5A6B7C8D9")))
         [meena; ravi] /\
  payload_empty_key !! "" = Some (VStr "x") /\
  fst (put_member "64B7F0C2A1D3E4F5A6B7C8D9" payload_empty_key 1700000000000
         (fresh [meena; ravi]))
  = Return (res_status_json 500 (JMessage "Internal server error")) /\
  members (snd (put_member "64B7F0C2A1D3E4F5A6B7C8D9" payload_empty_key 1700000000000
                  (fresh [meena; ravi]))) = [meena; ravi].
Proof.
  split; [reflexivity|]. split; [reflexivity|].
  split; [repeat constructor; vm_compute; discriminate|].
  split; [reflexivity|]. split; vm_compute; reflexivity.
Qed.

(** C9 (amended): a profile update whose identifier is a well-formed store
    identifier that no stored record has, with a payload of plain field
    names, is answered with status 404, "Member not found", and the
    collection is as before: the one call made on the store, [updateOne],
    matched and changed nothing. *)
Theorem C9_update_of_unknown_id_changes_nothing
  (id : string) (updateData : doc) (now : Z) (docs : list doc) :
  ObjectId_isValid id = true ->
  plain_payload updateData ->
  Forall (fun d => d !! "_id" <> Some (VOid (lower id))) docs ->
  exists c,
    put_member id updateData now (fresh docs) =
    (Return (res_status_json 404 (JMessage "Member not found")),
     {| members := docs; calls := [c] |}).
Proof.
  intros Hid Hplain Hdocs. eexists.
  apply (plain_fields _ now) in Hplain.
  unfold put_member, try_catch, mbind, M_bind, bind.
  rewrite new_ObjectId_valid by done.
  unfold updateOne, mbind, M_bind, bind, log_call. cbn [members calls fresh].
  rewrite (plain_key_nonempty _ Hplain).
  rewrite bool_decide_eq_false_2 by (by intros [? ?]).
  rewrite update_first_miss; [reflexivity|done|].
  eapply Forall_impl; [apply Hdocs|]. intros d Hd. simpl in Hd.
  change (eval (query_object [QField "_id" (CEq (VOid (lower id)))]) d = Some false).
  by rewrite eval_by_id, eq_match_oid_false.
Qed.

Lemma C9_witness :
  exists c,
    put_member "64B7F0C2A1D3E4F5A6B7C8D9" payload_with_id 1700000000000
      (fresh [meena; ravi]) =
    (Return (res_status_json 404 (JMessage "Member not found")),
     {| members := [meena; ravi]; calls := [c] |}).
Proof.
  apply (C9_update_of_unknown_id_changes_nothing
           "64B7F0C2A1D3E4F5A6B7C8D9" payload_with_id 1700000000000 [meena; ravi]).
  - reflexivity.
  - unfold plain_payload. apply (bool_decide_unpack _). vm_compute. exact I.
  - repeat constructor; vm_compute; discriminate.
Defined.

Section UpdateHit.

Lemma filter_none {A} (p : A -> bool) (l : list A) :
  Forall (fun x => p x = false) l -> List.filter p l = [].
Proof. induction 1 as [|x l Hx _ IH]; [done|]. simpl. by rewrite Hx. Qed.

(** What [$set] with the handler's [fieldsToUpdate] makes of a record. *)
Lemma set_fields_lookup (updateData d : doc) (now : Z) (k : string) :
  ((<["UserUpdated" := VDate now]> (delete "_id" updateData)) ∪ d) !! k =
  if decide (k = "UserUpdated") then Some (VDate now)
  else if decide (k = "_id") then d !! k
  else match updateData !! k with
       | Some v => Some v
       | None => d !! k
       end.
Proof.
  rewrite lookup_union.
  destruct (decide (k = "UserUpdated")) as [->|Hu].
  - rewrite lookup_insert_eq. by destruct (d !! "UserUpdated").
  - rewrite lookup_insert_ne by done.
    destruct (decide (k = "_id")) as [->|Hi].
    + rewrite lookup_delete_eq. by destruct (d !! "_id").
    + rewrite lookup_delete_ne by done.
      by destruct (updateData !! k), (d !! k).
Qed.

End UpdateHit.

(** C10, as stated for every payload, fails where the store refuses the
    fields: a payload with an empty field name, and a payload whose key
    "City.zip" is a path through the city, which is a text. Each update
    reaches the record of the identifier and is refused; the request is
    answered 500, and the record is as before, with no last-updated
    field. *)
Lemma C10_counterexample :
  (fst (put_member "64B7F0C2A1D3E4F5A6B7C8DA" payload_empty_key 1700000000000
          (fresh [ravi; meena]))
   = Return (res_status_json 500 (JMessage "Internal server error")) /\
   members (snd (put_member "64B7F0C2A1D3E4F5A6B7C8DA" payload_empty_key 1700000000000
                   (fresh [ravi; meena]))) = [ravi; meena]) /\
  (fst (put_member "64B7F0C2A1D3E4F5A6B7C8DA" payload_with_path 1700000000000
          (fresh [ravi; meena]))
   = Return (res_status_json 500 (JMessage "Internal server error")) /\
   members (snd (put_member "64B7F0C2A1D3E4F5A6B7C8DA" payload_with_path 1700000000000
                   (fresh [ravi; meena]))) = [ravi; meena]) /\
  meena !! "_id" = Some (VOid (lower "64B7F0C2A1D3E4F5A6B7C8DA")) /\
  meena !! "City" = Some (VStr "Madurai") /\
  meena !! "UserUpdated" = None.
Proof. repeat split; vm_compute; reflexivity. Qed.

(** C10 (amended): when a profile update reaches a stored record, whatever
    the payload of plain field names holds, an identifier field included,
    the record keeps its identifier, its last-updated field is set to the
    time of the update, every other field that the payload names takes the
    payload's value, and every field that the payload does not name stays
    as it was; the records around it are untouched. *)
Theorem C10_update_keeps_id_and_stamps
  (id : string) (updateData : doc) (now : Z) (pre post : list doc) (d : doc) :
  ObjectId_isValid id = true ->
  plain_payload updateData ->
  Forall (fun x => x !! "_id" <> Some (VOid (lower id))) pre ->
  d !! "_id" = Some (VOid (lower id)) ->
  exists d' c1 c2,
    put_member id updateData now (fresh (pre ++ d :: post)) =
    (Return (res_json (JUpdated "Profile updated successfully" (Some d'))),
     {| members := pre ++ d' :: post; calls := [c1; c2] |}) /\
    d' !! "_id" = d !! "_id" /\
    d' !! "UserUpdated" = Some (VDate now) /\
    (forall k v, k <> "_id" -> k <> "UserUpdated" ->
                 updateData !! k = Some v -> d' !! k = Some v) /\
    (forall k, k <> "UserUpdated" -> updateData !! k = None -> d' !! k = d !! k).
Proof.
  intros Hid Hplain Hpre Hd.
  apply (plain_fields _ now) in Hplain.
  set (q := query_object [QField "_id" (CEq (VOid (lower id)))]).
  set (d' := (<["UserUpdated" := VDate now]> (delete "_id" updateData)) ∪ d).
  assert (Hmiss : Forall (fun x => eval q x = Some false) pre).
  { eapply Forall_impl; [apply Hpre|]. intros x Hx. simpl in Hx.
    unfold q. by rewrite eval_by_id, eq_match_oid_false. }
  assert (Hid' : d' !! "_id" = d !! "_id").
  { unfold d'. rewrite set_fields_lookup. by repeat case_decide. }
  assert (Hhit : eval q d = Some true).
  { unfold q. rewrite eval_by_id. f_equal. by apply eq_match_oid. }
  assert (Hhit' : eq_match (d' !! "_id") (VOid (lower id)) = true).
  { apply eq_match_oid. by rewrite Hid'. }
  exists d'. do 2 eexists. split; [|split; [done|split; [|split]]].
  - unfold put_member, try_catch, mbind, M_bind, bind.
    rewrite new_ObjectId_valid by done.
    unfold updateOne, mbind, M_bind, bind, log_call. cbn [members calls fresh].
    rewrite (plain_key_nonempty _ Hplain).
    rewrite bool_decide_eq_false_2 by (by intros [? ?]).
    fold q. rewrite (update_first_hit q _ pre post d) by done.
    cbn [Z.eqb]. rewrite new_ObjectId_valid by done.
    unfold findOne, mbind, M_bind, bind, log_call, of_option. cbn [members calls].
    fold q d'.
    rewrite (select_filter q (fun x => eq_match (x !! "_id") (VOid (lower id))))
      by (intros x; apply eval_by_id).
    rewrite List.filter_app, filter_none.
    + cbn [List.filter]. rewrite Hhit'. reflexivity.
    + eapply Forall_impl; [apply Hpre|]. intros x Hx. by apply eq_match_oid_false.
  - unfold d'. rewrite set_fields_lookup. by case_decide.
  - intros k v Hk1 Hk2 Hv. unfold d'. rewrite set_fields_lookup, Hv.
    by repeat case_decide.
  - intros k Hk Hv. unfold d'. rewrite set_fields_lookup, Hv.
    by repeat case_decide.
Qed.

Lemma C10_witness :
  exists d' c1 c2,
    put_member "64B7F0C2A1D3E4F5A6B7C8DA" payload_with_id 1700000000000
      (fresh ([ravi] ++ meena :: [kovil_only])) =
    (Return (res_json (JUpdated "Profile updated successfully" (Some d'))),
     {| members := [ravi] ++ d' :: [kovil_only]; calls := [c1; c2] |}) /\
    d' !! "_id" = meena !! "_id" /\
    d' !! "UserUpdated" = Some (VDate 1700000000000) /\
    (forall k v, k <> "_id" -> k <> "UserUpdated" ->
                 payload_with_id !! k = Some v -> d' !! k = Some v) /\
    (forall k, k <> "UserUpdated" -> payload_with_id !! k = None ->
               d' !! k = meena !! k).
Proof.
  apply (C10_update_keeps_id_and_stamps
           "64B7F0C2A1D3E4F5A6B7C8DA" payload_with_id 1700000000000
           [ravi] [kovil_only] meena).
  - reflexivity.
  - unfold plain_payload. apply (bool_decide_unpack _). vm_compute. exact I.
  - repeat constructor; vm_compute; discriminate.
  - reflexivity.
Defined.

(** ** The aggregation pipelines *)

Section Pipelines.

Lemma eval_match_stage (f : string) (d : doc) :
  eval (query_object [QField f ne_null_ne_empty]) d = Some (not_empty f d).
Proof.
  unfold query_object. rewrite eval_QAnd_cons. cbn [eval].
  rewrite eval_ne_null_ne_empty. simpl. by rewrite andb_true_r.
Qed.

Lemma run_count_pipeline (f : string) (docs : list doc) :
  run_pipeline (count_pipeline f) docs = Some (sort_docs "count" (-1) (groups f docs)).
Proof.
  unfold count_pipeline. cbn [run_pipeline run_stage].
  by rewrite (select_filter _ (not_empty f)) by apply eval_match_stage.
Qed.

Lemma run_top10_pipeline (f : string) (docs : list doc) :
  run_pipeline (top10_pipeline f) docs =
  Some (take 10 (sort_docs "count" (-1) (groups f docs))).
Proof.
  unfold top10_pipeline. cbn [run_pipeline run_stage].
  by rewrite (select_filter _ (not_empty f)) by apply eval_match_stage.
Qed.

Lemma run_year_pipeline (docs : list doc) :
  run_pipeline year_pipeline docs = Some (sort_docs "_id" 1 (groups "YearSince" docs)).
Proof.
  unfold year_pipeline. cbn [run_pipeline run_stage].
  by rewrite (select_filter _ (not_empty "YearSince")) by apply eval_match_stage.
Qed.

(** The rows of [$group] *)

Lemma group_row_id (k : value) (n : Z) : group_row (k, n) !! "_id" = Some k.
Proof. reflexivity. Qed.

Lemma group_row_count (k : value) (n : Z) : group_row (k, n) !! "count" = Some (VNum n).
Proof. reflexivity. Qed.

Lemma group_row_dom (kn : value * Z) : dom (group_row kn) = ({[ "_id"; "count" ]} : gset string).
Proof.
  unfold group_row, js_object. simpl. rewrite !dom_insert_L, dom_empty_L.
  set_solver.
Qed.

Lemma bump_total (k : value) (tbl : list (value * Z)) :
  total_count (map group_row (bump k tbl)) = total_count (map group_row tbl) + 1.
Proof.
  induction tbl as [|[k' n] tbl IH]; simpl.
  - reflexivity.
  - destruct (decide (k = k')); simpl.
    + unfold row_count. rewrite !group_row_count. lia.
    + rewrite IH. lia.
Qed.

Lemma tally_total (f : string) (docs : list doc) :
  total_count (map group_row (tally f docs)) = Z.of_nat (length docs).
Proof.
  unfold tally.
  enough (H : forall tbl,
             total_count (map group_row
               (foldl (fun tbl d => bump (field_or_null f d) tbl) tbl docs))
             = total_count (map group_row tbl) + Z.of_nat (length docs))
    by apply (H []).
  induction docs as [|d docs IH]; intros tbl; simpl foldl.
  - simpl. lia.
  - rewrite IH, bump_total. simpl length. lia.
Qed.

Lemma total_count_Permutation (l1 l2 : list doc) :
  l1 ≡ₚ l2 -> total_count l1 = total_count l2.
Proof. induction 1; simpl; lia. Qed.

(** What the statistics count: the records whose field is not the empty
    string, those without the field and those with a null included. *)
Lemma stats_total_count (f : string) (docs : list doc) :
  total_count (sort_docs "count" (-1) (groups f docs)) =
  Z.of_nat (length (List.filter (not_empty f) docs)).
Proof.
  rewrite (total_count_Permutation _ _ (sort_docs_Permutation _ _ _)).
  apply tally_total.
Qed.

Lemma groups_are_rows (f : string) (docs : list doc) (g : doc) :
  g ∈ groups f docs -> exists k n, g = group_row (k, n).
Proof.
  unfold groups. rewrite list_elem_of_In, in_map_iff.
  intros ([k n] & <- & _). eauto.
Qed.

End Pipelines.

(** ** The statistics handlers *)

Section Stats.

Lemma get_stats_run (f : string) (docs : list doc) :
  (result ← aggregate_toArray (count_pipeline f); mret (res_json (JDocs result)))
    (fresh docs) =
  (Return (res_json (JDocs (sort_docs "count" (-1) (groups f docs)))),
   {| members := docs; calls := [CallAggregate (count_pipeline f)] |}).
Proof.
  unfold mbind, M_bind, bind.
  by rewrite (aggregate_toArray_run (count_pipeline f) (fresh docs) _
                (run_count_pipeline f docs)).
Qed.

Lemma get_stats_year_run (docs : list doc) :
  get_stats_year (fresh docs) =
  (Return (res_json (JDocs (sort_docs "_id" 1 (groups "YearSince" docs)))),
   {| members := docs; calls := [CallAggregate year_pipeline] |}).
Proof.
  unfold get_stats_year, mbind, M_bind, bind.
  by rewrite (aggregate_toArray_run year_pipeline (fresh docs) _
                (run_year_pipeline docs)).
Qed.

End Stats.

Section GroupKeys.

Lemma bump_keys (Q : value -> Prop) (k : value) (tbl : list (value * Z)) :
  Q k -> Forall (fun kn => Q kn.1) tbl -> Forall (fun kn => Q kn.1) (bump k tbl).
Proof.
  intros Hk. induction 1 as [|[k' n] tbl Hk' Htbl IH]; simpl.
  - by repeat constructor.
  - destruct (decide (k = k')); by constructor.
Qed.

(** Every key of the frequency table is the value some record has. *)
Lemma tally_keys (Q : value -> Prop) (f : string) (docs : list doc) :
  Forall (fun d => Q (field_or_null f d)) docs ->
  Forall (fun kn => Q kn.1) (tally f docs).
Proof.
  unfold tally.
  enough (H : forall tbl, Forall (fun kn => Q kn.1) tbl ->
             Forall (fun d => Q (field_or_null f d)) docs ->
             Forall (fun kn => Q kn.1)
               (foldl (fun tbl d => bump (field_or_null f d) tbl) tbl docs))
    by (apply H; constructor).
  induction docs as [|d docs IH]; intros tbl Htbl Hdocs; simpl; [done|].
  inversion Hdocs; subst. apply IH; [|done]. by apply bump_keys.
Qed.

Lemma groups_keys (Q : value -> Prop) (f : string) (docs : list doc) :
  Forall (fun d => not_empty f d = true -> Q (field_or_null f d)) docs ->
  Forall (fun g => Q (field_or_null "_id" g)) (groups f docs).
Proof.
  intros H. unfold groups. rewrite Forall_map.
  eapply Forall_impl; [apply (tally_keys Q f)|].
  - rewrite Forall_forall in *. intros d Hd. rewrite list_elem_of_In in Hd.
    apply filter_In in Hd as [Hd Hne]. rewrite <- list_elem_of_In in Hd.
    by apply H.
  - by intros [k n].
Qed.

(** No group has the empty string for its key. *)
Lemma groups_no_empty_key (f : string) (docs : list doc) :
  Forall (fun g => field_or_null "_id" g <> VStr "") (groups f docs).
Proof.
  apply (groups_keys (fun k => k <> VStr "")). apply Forall_forall.
  intros d _ Hne Hk.
  unfold not_empty, eq_match in Hne. fold (field_or_null f d) in Hne.
  rewrite Hk in Hne. by rewrite bool_decide_eq_true_2 in Hne.
Qed.

End GroupKeys.

(** C1: the claim fails on the code at records whose field is null or
    missing. The object literal [{ $ne: null, $ne: "" }] keeps its last
    [$ne] only, so the match stage drops the empty string and nothing
    else: on a collection of one member with a native village, one with a
    null native village and one without the field, the native-village
    statistics hold a group with key null and count 2, and the counts add
    up to 3, while one record has a non-empty value. *)
Theorem C1_null_and_missing_are_grouped :
  js_object [("$ne", VNull); ("$ne", VStr "")] = {["$ne" := VStr ""]} /\
  fst (get_stats_native_village (fresh [meena; valli; ravi]))
  = Return (res_json (JDocs [group_row (VNull, 2);
                             group_row (VStr "Karaikudi", 1)])) /\
  total_count [group_row (VNull, 2); group_row (VStr "Karaikudi", 1)] = 3 /\
  List.filter (has_value "Chettinad native place") [meena; valli; ravi] = [meena].
Proof. repeat split; reflexivity. Qed.

(** C4, as stated, fails: the rows of a single-field statistics response
    are the rows of the aggregation as they are, with the group key under
    [_id]; they have no field [name]. *)
Lemma C4_counterexample :
  fst (get_stats_native_village (fresh [meena]))
  = Return (res_json (JDocs [js_object [("_id", VStr "Karaikudi"); ("count", VNum 1)]])) /\
  js_object [("_id", VStr "Karaikudi"); ("count", VNum 1)] !! "name" = None.
Proof. split; reflexivity. Qed.

(** C4 (amended): for every single-field statistics request (native
    village, city, temple, year) the response is an ordered sequence of
    rows with exactly the fields [_id], the group key, and [count], one row
    per group; the reshape to [name] and [count] is not applied there. *)
Theorem C4_single_field_rows_are_id_count (docs : list doc) :
  let id_count_rows (h : M response) (f : string) :=
    exists rows,
      fst (h (fresh docs)) = Return (res_json (JDocs rows)) /\
      rows ≡ₚ groups f docs /\
      Forall (fun r => dom r = ({[ "_id"; "count" ]} : gset string) /\
                       r !! "name" = None /\
                       exists k n, r = group_row (k, n)) rows in
  id_count_rows get_stats_native_village "Chettinad native place" /\
  id_count_rows get_stats_city "City" /\
  id_count_rows get_stats_kovil "Kovil" /\
  id_count_rows get_stats_year "YearSince".
Proof.
  assert (Hrows : forall f rows, rows ≡ₚ groups f docs ->
            Forall (fun r => dom r = ({[ "_id"; "count" ]} : gset string) /\
                             r !! "name" = None /\
                             exists k n, r = group_row (k, n)) rows).
  { intros f rows Hp. apply Forall_forall. intros r Hr.
    rewrite Hp in Hr. apply groups_are_rows in Hr as (k & n & ->).
    split; [apply group_row_dom|]. split; [reflexivity|eauto]. }
  cbv zeta. repeat split.
  - eexists. unfold get_stats_native_village. rewrite get_stats_run.
    split; [reflexivity|]. split; [apply sort_docs_Permutation|].
    eapply Hrows, sort_docs_Permutation.
  - eexists. unfold get_stats_city. rewrite get_stats_run.
    split; [reflexivity|]. split; [apply sort_docs_Permutation|].
    eapply Hrows, sort_docs_Permutation.
  - eexists. unfold get_stats_kovil. rewrite get_stats_run.
    split; [reflexivity|]. split; [apply sort_docs_Permutation|].
    eapply Hrows, sort_docs_Permutation.
  - eexists. rewrite get_stats_year_run.
    split; [reflexivity|]. split; [apply sort_docs_Permutation|].
    eapply Hrows, sort_docs_Permutation.
Qed.

(** ** GET /analytics *)

Section Analytics.

Lemma year_known_key (d : doc) :
  year_known d -> is_Some (key_text (field_or_null "YearSince" d)).
Proof.
  unfold year_known, field_or_null, key_text, number_text.
  destruct (d !! "YearSince") as [[]|]; simpl; try done.
  intros ->. by eexists.
Qed.

Lemma name_string_count_run (item r : doc) (w : world) :
  year_name_count item = Some r ->
  name_string_count item w = (Return r, w).
Proof.
  unfold name_string_count, year_name_count, key_text, field_or_null,
    mbind, M_bind, bind, toString, of_option.
  destruct (item !! "_id") as [[]|]; simpl; try done.
  - by intros [= <-].
  - destruct (number_text z); simpl; [|done]. by intros [= <-].
Qed.

Lemma mapM_name_string_count (rows ym : list doc) (w : world) :
  Forall2 (fun g r => year_name_count g = Some r) rows ym ->
  mapM name_string_count rows w = (Return ym, w).
Proof.
  induction 1 as [|g r rows ym Hg _ IH]; [done|].
  cbn [mapM]. unfold mbind, M_bind, bind.
  by rewrite (name_string_count_run g r), IH.
Qed.

Lemma year_name_count_total (rows : list doc) :
  Forall (fun g => is_Some (key_text (field_or_null "_id" g))) rows ->
  exists ym, Forall2 (fun g r => year_name_count g = Some r) rows ym.
Proof.
  induction 1 as [|g rows [name Hg] _ [ym IH]]; [by exists []|].
  eexists (_ :: ym). constructor; [|done].
  unfold year_name_count. rewrite Hg. reflexivity.
Qed.

(** When every record has a year, the combined statistics are the four
    pipelines' rows, reshaped. *)
Lemma get_analytics_run (docs : list doc) :
  Forall year_known docs ->
  exists ym,
    Forall2 (fun g r => year_name_count g = Some r)
            (sort_docs "_id" 1 (groups "YearSince" docs)) ym /\
    fst (get_analytics (fresh docs)) =
    Return (res_json (JAnalytics
      (map name_count (take 10 (sort_docs "count" (-1) (groups "Chettinad native place" docs))))
      (map name_count (take 10 (sort_docs "count" (-1) (groups "City" docs))))
      (map name_count (take 10 (sort_docs "count" (-1) (groups "Kovil" docs))))
      ym)).
Proof.
  intros Hy.
  destruct (year_name_count_total (sort_docs "_id" 1 (groups "YearSince" docs)))
    as [ym Hym].
  { rewrite sort_docs_Permutation.
    apply (groups_keys (fun k => is_Some (key_text k))).
    eapply Forall_impl; [apply Hy|]. intros d Hd _. by apply year_known_key. }
  exists ym. split; [done|].
  unfold get_analytics, try_catch, mbind, M_bind, bind.
  do 3 (erewrite aggregate_toArray_run by (cbn [members fresh]; apply run_top10_pipeline)).
  erewrite aggregate_toArray_run by (cbn [members fresh]; apply run_year_pipeline).
  by rewrite (mapM_name_string_count _ ym).
Qed.

(** A record without a year: its group key is null, the reshape of the
    year rows throws, and the whole request is answered 500. *)
Lemma get_analytics_missing_year :
  fst (get_analytics (fresh [meena])) = Return internal_error.
Proof. reflexivity. Qed.

Lemma name_count_count (g : doc) :
  field_or_null "count" (name_count g) = field_or_null "count" g.
Proof.
  unfold name_count, field_or_null, set_opt.
  destruct (g !! "count") as [c|].
  - by rewrite lookup_insert_eq.
  - destruct (g !! "_id"); [by rewrite lookup_insert_ne|done].
Qed.

Lemma descending_top10 (rows : list doc) :
  StronglySorted (by_field "count" (-1)) rows ->
  descending_by "count" (map name_count (take 10 rows)).
Proof.
  intros HS. rewrite <- (take_drop 10 rows) in HS.
  apply StronglySorted_app_1_l, StronglySorted_Sorted in HS.
  unfold descending_by. change (map name_count (take 10 rows))
    with (name_count <$> take 10 rows).
  eapply Sorted_fmap; [|apply HS].
  intros x y Hxy. rewrite !name_count_count. apply Hxy.
Qed.

End Analytics.

(** C6 fails on the code, by the defect of C1: the records without a
    value for the field form a group of their own, with key null, and
    that group takes one of the ten places. The collection here has
    eleven villages, "0" to "9" with two members each and "10" with one,
    and three members without a village: the ten highest-count groups are
    the villages "0" to "9". The view is answered with an entry for null,
    of count 3, and nine villages: village "7", with its two members, has
    no entry. The city, temple and year sequences of this collection are
    as they should be. *)
Theorem C6_null_group_takes_a_place_among_the_ten :
  groups_with_value "Chettinad native place" eleven_villages
  = map (fun n : nat => group_row (VStr (pretty n), 2)) (seq 0 10)
    ++ [group_row (VStr "10", 1)] /\
  fst (get_analytics (fresh eleven_villages)) =
  Return (res_json (JAnalytics
    [entry VNull 3;
     entry (VStr "8") 2; entry (VStr "9") 2; entry (VStr "0") 2;
     entry (VStr "1") 2; entry (VStr "2") 2; entry (VStr "3") 2;
     entry (VStr "4") 2; entry (VStr "5") 2; entry (VStr "6") 2]
    [entry (VStr "Chennai") 21; entry (VStr "Austin") 3]
    [entry (VStr "Vairavan") 24]
    ([entry (VStr "1998") 1; entry (VStr "1999") 2]
     ++ map (fun n : nat => entry (VStr (pretty (2000 + n)%nat)) 2) (seq 0 10)
     ++ [entry (VStr "2010") 1]))).
Proof. split; vm_compute; reflexivity. Qed.

(** C7: the year statistics are sorted ascending by group key, in the
    store's order of values, and the native-village, city and temple
    statistics are each sorted descending by count. *)
Theorem C7_statistics_are_ordered (docs : list doc) :
  (exists rows, fst (get_stats_year (fresh docs)) = Return (res_json (JDocs rows)) /\
                ascending_by "_id" rows) /\
  (exists rows, fst (get_stats_native_village (fresh docs)) = Return (res_json (JDocs rows)) /\
                descending_by "count" rows) /\
  (exists rows, fst (get_stats_city (fresh docs)) = Return (res_json (JDocs rows)) /\
                descending_by "count" rows) /\
  (exists rows, fst (get_stats_kovil (fresh docs)) = Return (res_json (JDocs rows)) /\
                descending_by "count" rows).
Proof.
  repeat split.
  - eexists. rewrite get_stats_year_run. split; [reflexivity|].
    apply (sort_docs_Sorted "_id" 1).
  - eexists. unfold get_stats_native_village. rewrite get_stats_run.
    split; [reflexivity|]. apply (sort_docs_Sorted "count" (-1)).
  - eexists. unfold get_stats_city. rewrite get_stats_run.
    split; [reflexivity|]. apply (sort_docs_Sorted "count" (-1)).
  - eexists. unfold get_stats_kovil. rewrite get_stats_run.
    split; [reflexivity|]. apply (sort_docs_Sorted "count" (-1)).
Qed.

(** The same orders in the combined view: the three truncated sequences
    descend by count, and the year-moved sequence is the reshape of rows
    that ascend by key. *)
Lemma analytics_sequences_are_ordered (docs : list doc) :
  Forall year_known docs ->
  exists nv cr nk rows ym,
    fst (get_analytics (fresh docs))
    = Return (res_json (JAnalytics nv cr nk ym)) /\
    Forall2 (fun g r => year_name_count g = Some r) rows ym /\
    descending_by "count" nv /\ descending_by "count" cr /\
    descending_by "count" nk /\ ascending_by "_id" rows.
Proof.
  intros Hy. destruct (get_analytics_run docs Hy) as (ym & Hym & Hrun).
  do 3 eexists. exists (sort_docs "_id" 1 (groups "YearSince" docs)), ym.
  split; [exact Hrun|]. split; [done|].
  repeat split; try (apply descending_top10, sort_docs_StronglySorted).
  apply (sort_docs_Sorted "_id" 1).
Qed.

(** ** GET /members: the page of the sorted matches *)

Section MemberList.

Lemma select_total (t : string) (docs : list doc) :
  is_Some (Regex.parse (list_ascii_of_string t)) ->
  exists p, (forall d, eval (members_query t) d = Some (p d)) /\
            select (members_query t) docs = Some (List.filter p docs).
Proof.
  intros [r Hr].
  exists (fun d => existsb (fun f => match d !! f with
                                     | Some (VStr s) =>
                                         Regex.search true r (list_ascii_of_string s)
                                     | _ => false
                                     end) search_fields).
  assert (He : forall d, eval (members_query t) d = Some
            (existsb (fun f => match d !! f with
                               | Some (VStr s) =>
                                   Regex.search true r (list_ascii_of_string s)
                               | _ => false
                               end) search_fields)).
  { intros d.
    change (members_query t)
      with (query_object [QOr (map (fun f => QField f (regex_i t)) search_fields)]).
    unfold query_object. rewrite eval_QAnd_cons, (eval_any_regex t r) by done.
    cbn [eval mbind option_bind]. by rewrite andb_true_r. }
  split; [done|]. by apply select_filter.
Qed.

Lemma project_keeps (fields : list string) (f : string) (d : doc) :
  f ∈ fields -> project fields d !! f = d !! f.
Proof.
  intros Hf. unfold project. rewrite map_lookup_filter.
  destruct (d !! f) as [v|]; [|done]. simpl. by rewrite option_guard_True.
Qed.

Lemma ascending_projected (rows : list doc) :
  ascending_by "First name" rows ->
  ascending_by "First name" (map (project list_view) rows).
Proof.
  unfold ascending_by. intros HS.
  change (map (project list_view) rows) with (project list_view <$> rows).
  eapply Sorted_fmap; [|apply HS].
  intros x y Hxy. unfold field_or_null.
  rewrite !project_keeps; [done|unfold list_view; set_solver..].
Qed.

End MemberList.

(** ** GET /members over the store's pattern engine and order *)

Section StoreAsParameter.

Variable engine : string -> string -> verdict.
Variable order : cursor -> list doc -> list doc.

Lemma eval_in_QOr_cons q qs d :
  eval_in engine (QOr (q :: qs)) d =
  and_then (eval_in engine q d) (fun b =>
  and_then (eval_in engine (QOr qs) d) (fun bs => Return (b || bs))).
Proof. reflexivity. Qed.

Lemma eval_in_QAnd_cons q qs d :
  eval_in engine (QAnd (q :: qs)) d =
  and_then (eval_in engine q d) (fun b =>
  and_then (eval_in engine (QAnd qs) d) (fun bs => Return (b && bs))).
Proof. reflexivity. Qed.

(** The condition of the member search on one field, by the verdict of
    the engine on the term. *)
Lemma eval_cond_in_regex_i (t : string) (fv : option value) :
  eval_cond_in engine (regex_i t) fv =
  match engine t "i" with
  | Accepts test => Return match fv with
                           | Some (VStr s) => test s
                           | _ => false
                           end
  | Rejects => Throw MongoServerError
  | Unknown => Beyond
  end.
Proof.
  unfold regex_i, eval_cond_in, eval_ops_in.
  set (ops := js_object _).
  assert (Hdom : bool_decide (dom ops ⊆ known_ops) = true) by (vm_compute; reflexivity).
  assert (Hre : ops !! "$regex" = Some (VStr t)) by reflexivity.
  assert (Hne : ops !! "$ne" = None) by reflexivity.
  assert (Hop : ops !! "$options" = Some (VStr "i")) by reflexivity.
  rewrite Hdom, Hre, Hne, Hop. cbn [options_text].
  by destruct (engine t "i").
Qed.

Lemma eval_in_any_regex (t : string) (test : string -> bool)
    (fields : list string) (d : doc) :
  engine t "i" = Accepts test ->
  eval_in engine (QOr (map (fun f => QField f (regex_i t)) fields)) d =
  Return (existsb (fun f => match d !! f with
                            | Some (VStr s) => test s
                            | _ => false
                            end) fields).
Proof.
  intros He. induction fields as [|f fields IH]; [done|].
  cbn [map]. rewrite eval_in_QOr_cons, IH. cbn [eval_in].
  by rewrite eval_cond_in_regex_i, He.
Qed.

Lemma eval_in_members_query (t : string) (test : string -> bool) (d : doc) :
  engine t "i" = Accepts test ->
  eval_in engine (members_query t) d = Return (matches_search test d).
Proof.
  intros He.
  change (members_query t)
    with (query_object [QOr (map (fun f => QField f (regex_i t)) search_fields)]).
  unfold query_object. rewrite eval_in_QAnd_cons, (eval_in_any_regex t test) by done.
  cbn [eval_in and_then]. by rewrite andb_true_r.
Qed.

(** A term the engine rejects, or leaves open, does so on every record. *)
Lemma eval_in_members_query_not_accepted (t : string) (d : doc) :
  eval_in engine (members_query t) d =
  match engine t "i" with
  | Accepts test => Return (matches_search test d)
  | Rejects => Throw MongoServerError
  | Unknown => Beyond
  end.
Proof.
  destruct (engine t "i") as [test| |] eqn:He.
  - by apply eval_in_members_query.
  - unfold members_query, query_object. rewrite eval_in_QAnd_cons, eval_in_QOr_cons.
    cbn [eval_in]. by rewrite eval_cond_in_regex_i, He.
  - unfold members_query, query_object. rewrite eval_in_QAnd_cons, eval_in_QOr_cons.
    cbn [eval_in]. by rewrite eval_cond_in_regex_i, He.
Qed.

Lemma select_in_filter (q : query) (p : doc -> bool) (docs : list doc) :
  (forall d, eval_in engine q d = Return (p d)) ->
  select_in engine q docs = Return (List.filter p docs).
Proof.
  intros Hq. induction docs as [|d docs IH]; [done|].
  simpl. rewrite Hq, IH. simpl. by destruct (p d).
Qed.

Lemma find_toArray_in_run (c : cursor) (w : world) (p : doc -> bool) :
  (forall d, eval_in engine (c_filter c) d = Return (p d)) ->
  0 <= default 0 (c_skip c) ->
  0 <= default 0 (c_limit c) ->
  find_toArray_in engine order c w =
  (Return (map (project (c_project c))
             (apply_limit (default 0 (c_limit c))
                (drop (Z.to_nat (default 0 (c_skip c)))
                   (order c (List.filter p (members w)))))),
   {| members := members w; calls := calls w ++ [CallFind c] |}).
Proof.
  intros Hq Hskip Hlimit.
  unfold find_toArray_in, mbind, M_bind, bind, log_call. simpl.
  rewrite !bool_decide_eq_false_2 by lia.
  by rewrite Hq, (select_in_filter _ p).
Qed.

End StoreAsParameter.

Lemma merge_order_sorts : sorts merge_order.
Proof.
  intros c found. split; [apply sort_docs_Sorted|apply sort_docs_Permutation].
Qed.

Lemma fragment_engine_accepts (t : string) (r : list Regex.atom) :
  Regex.parse (list_ascii_of_string t) = Some r ->
  fragment_engine t "i"
  = Accepts (fun s => Regex.search true r (list_ascii_of_string s)).
Proof. intros Hr. unfold fragment_engine. by rewrite Hr. Qed.

(** On the patterns of [Regex], the member list over the engine of the
    fragment and the order of the merge sort is [get_members]. *)
Lemma get_members_in_fragment (search : option string) (page limit : option Z)
    (w : world) :
  is_Some (Regex.parse (list_ascii_of_string (default "" search))) ->
  get_members_in fragment_engine merge_order search page limit w
  = get_members search page limit w.
Proof.
  intros [r Hr].
  set (test := fun s => Regex.search true r (list_ascii_of_string s)).
  assert (Hi : forall d, eval_in fragment_engine (members_query (default "" search)) d
                         = Return (matches_search test d)).
  { intros d. by apply eval_in_members_query, fragment_engine_accepts. }
  assert (He : forall d, eval (members_query (default "" search)) d
                         = Some (matches_search test d)).
  { intros d.
    change (members_query (default "" search))
      with (query_object [QOr (map (fun f => QField f (regex_i (default "" search)))
                                   search_fields)]).
    unfold query_object. rewrite eval_QAnd_cons, (eval_any_regex _ r) by done.
    cbn [eval mbind option_bind]. by rewrite andb_true_r. }
  unfold get_members_in, get_members, find_toArray_in, find_toArray,
    mbind, M_bind, bind, log_call.
  cbn [c_skip c_limit c_filter c_sort c_project members calls].
  repeat case_bool_decide; try done.
  rewrite (Hi ∅), (He ∅). cbn [and_then].
  by rewrite (select_in_filter fragment_engine _ _ _ Hi), (select_filter _ _ _ He).
Qed.

(** C8, as stated, fails below 1 and on a term that is no pattern. A
    limit of 0 is no limit to the store: the request with limit=0 is
    answered with the whole roster of 45 records, not with at most 0.
    Page=0 asks for a skip of -20, which the store rejects, and the search
    term "(" opens a group that it does not close, which the store rejects
    as a pattern; the handler has no [try], so these two requests yield no
    sequence at all. *)
Lemma C8_counterexample :
  (fst (get_members_in fragment_engine merge_order (Some "") None (Some 0) (fresh roster))
   = Return (res_json (JDocs roster)) /\ length roster = 45%nat) /\
  fst (get_members_in fragment_engine merge_order None (Some 0) None (fresh roster))
  = Throw MongoServerError /\
  fst (get_members_in fragment_engine merge_order (Some "(") None None (fresh roster))
  = Throw MongoServerError.
Proof. repeat split; vm_compute; reflexivity. Qed.

(** C8 (amended): for every member-list request with a page of at least 1
    and a limit of at least 1, page being 1 and limit 20 where the request
    does not give them, and a search term that the store accepts as a
    pattern, the response is the slice of the full result, the matching
    records sorted ascending by first name and projected to the list
    view, that starts at offset (page - 1) * limit and has at most limit
    records. The store is any store that sorts, with its own pattern
    engine: the matching records are those with a searched field whose
    text the engine's test of the term accepts. *)
Theorem C8_member_list_is_a_page_of_the_sorted_matches
  (engine : string -> string -> verdict) (order : cursor -> list doc -> list doc)
  (test : string -> bool)
  (search : option string) (page limit : option Z) (docs : list doc) :
  sorts order ->
  engine (default "" search) "i" = Accepts test ->
  1 <= default 1 page ->
  1 <= default 20 limit ->
  exists sorted,
    sorted ≡ₚ List.filter (matches_search test) docs /\
    ascending_by "First name" sorted /\
    fst (get_members_in engine order search page limit (fresh docs))
    = Return (res_json (JDocs
        (take (Z.to_nat (default 20 limit))
           (drop (Z.to_nat ((default 1 page - 1) * default 20 limit))
              (map (project list_view) sorted))))) /\
    Z.of_nat (length (take (Z.to_nat (default 20 limit))
                        (drop (Z.to_nat ((default 1 page - 1) * default 20 limit))
                           (map (project list_view) sorted))))
    <= default 20 limit.
Proof.
  intros Hsorts Hengine Hpage Hlimit.
  set (pg := default 1 page) in *. set (lim := default 20 limit) in *.
  set (c := {| c_filter := members_query (default "" search);
               c_project := list_view; c_sort := "First name";
               c_skip := Some ((pg - 1) * lim); c_limit := Some lim |}).
  exists (order c (List.filter (matches_search test) docs)).
  destruct (Hsorts c (List.filter (matches_search test) docs)) as [Hs Hp].
  split; [done|]. split; [exact Hs|]. split.
  - unfold get_members_in, mbind, M_bind, bind. fold pg lim c.
    assert (Hskip : 0 <= (pg - 1) * lim) by nia.
    rewrite (find_toArray_in_run engine order c _ (matches_search test));
      [|intros d; by apply eval_in_members_query|exact Hskip|simpl; lia].
    simpl. unfold apply_limit. rewrite (proj2 (Z.eqb_neq lim 0)) by lia.
    by rewrite skipn_map, firstn_map.
  - rewrite length_take. lia.
Qed.

Lemma C8_witness :
  exists sorted,
    sorted ≡ₚ List.filter
                (matches_search (fun s => Regex.search true [] (list_ascii_of_string s)))
                roster /\
    ascending_by "First name" sorted /\
    fst (get_members_in fragment_engine merge_order (Some "") (Some 2) (Some 20)
           (fresh roster))
    = Return (res_json (JDocs (take 20 (drop 20 (map (project list_view) sorted))))) /\
    Z.of_nat (length (take 20 (drop 20 (map (project list_view) sorted)))) <= 20.
Proof.
  apply (C8_member_list_is_a_page_of_the_sorted_matches
           fragment_engine merge_order
           (fun s => Regex.search true [] (list_ascii_of_string s))
           (Some "") (Some 2) (Some 20) roster).
  - exact merge_order_sorts.
  - reflexivity.
  - simpl. lia.
  - simpl. lia.
Defined.

(** ** Sample runs *)

Section Samples.

(** Page 2 of the roster with limit 20: the members named "30" to "49". *)
Example members_page_2 :
  fst (get_members_in fragment_engine merge_order (Some "") (Some 2) (Some 20)
         (fresh roster))
  = Return (res_json (JDocs
      (map (fun n : nat => js_object [("First name", VStr (pretty n))]) (seq 30 20)))).
Proof. vm_compute. reflexivity. Qed.

(** A pattern matches where the literal term does not occur. *)
Example members_search_is_a_pattern :
  eval (members_query "r.v") ravi = Some true /\ ~ ci_substring "r.v" "Ravi".
Proof.
  split; [reflexivity|]. intros (pre & post & H).
  assert (Hin : In "."%char (list_ascii_of_string (lower "Ravi"))).
  { rewrite H. apply in_or_app. right. right. by left. }
  simpl in Hin. intuition discriminate.
Qed.

End Samples.

Section DistinctGroups.

Lemma bump_fst (k : value) (tbl : list (value * Z)) :
  map fst (bump k tbl) =
  if decide (k ∈ map fst tbl) then map fst tbl else map fst tbl ++ [k].
Proof.
  induction tbl as [|[k' n] tbl IH].
  - cbn [bump map]. destruct (decide (k ∈ [])) as [Hin|_]; [|done].
    by apply not_elem_of_nil in Hin.
  - cbn [bump map fst].
    destruct (decide (k ∈ k' :: map fst tbl)) as [Hin|Hin];
      destruct (decide (k = k')) as [->|Hne]; cbn [map fst].
    + done.
    + rewrite IH. apply elem_of_cons in Hin as [?|Hin]; [done|].
      by rewrite decide_True.
    + exfalso. apply Hin, elem_of_cons. by left.
    + rewrite IH, decide_False; [done|].
      intros ?. apply Hin, elem_of_cons. by right.
Qed.

(** The frequency table has one entry per distinct key. *)
Lemma tally_NoDup (f : string) (docs : list doc) : NoDup (map fst (tally f docs)).
Proof.
  unfold tally.
  enough (H : forall tbl, NoDup (map fst tbl) ->
             NoDup (map fst (foldl (fun tbl d => bump (field_or_null f d) tbl) tbl docs)))
    by (apply H; constructor).
  induction docs as [|d docs IH]; intros tbl Htbl; simpl; [done|].
  apply IH. rewrite bump_fst. case_decide; [done|].
  apply NoDup_app. split; [done|]. split; [|by apply NoDup_singleton].
  intros x Hx ->%list_elem_of_singleton. done.
Qed.

Lemma groups_distinct_keys (f : string) (docs : list doc) :
  NoDup (map (field_or_null "_id") (groups f docs)).
Proof.
  unfold groups. rewrite map_map.
  erewrite map_ext; [apply tally_NoDup|]. by intros [k n].
Qed.

End DistinctGroups.

(** * Further properties of the handlers *)

(** ** Lookup by email: POST /check-whitelist and GET /members/by-email *)

Section EmailLookup.

Lemma findOne_run (q : query) (w : world) (found : list doc) :
  select q (members w) = Some found ->
  findOne q w =
  (Return (head found),
   {| members := members w; calls := calls w ++ [CallFindOne q] |}).
Proof.
  intros Hsel. unfold findOne, mbind, M_bind, bind, log_call, of_option.
  simpl. by rewrite Hsel.
Qed.

Lemma eval_email_query (email : value) (d : doc) :
  eval (email_query email) d = Some (has_email email d).
Proof.
  unfold email_query, query_object, has_email. simpl.
  by rewrite orb_false_r, andb_true_r.
Qed.

Lemma findOne_email (email : value) (w : world) :
  findOne (email_query email) w =
  (Return (head (List.filter (has_email email) (members w))),
   {| members := members w; calls := calls w ++ [CallFindOne (email_query email)] |}).
Proof.
  apply findOne_run, select_filter. intros d. apply eval_email_query.
Qed.

Lemma eq_match_Some (fv : option value) (v : value) :
  v <> VNull -> eq_match fv v = true <-> fv = Some v.
Proof.
  intros Hv. unfold eq_match. rewrite bool_decide_eq_true.
  destruct fv; simpl; split; congruence.
Qed.

Lemma truthy_not_null (v : value) : js_truthy (Some v) = true -> v <> VNull.
Proof. by intros H ->. Qed.

Lemma has_email_iff (v : value) (d : doc) :
  v <> VNull ->
  has_email v d = true <-> d !! "Email" = Some v \/ d !! "Spouse email id" = Some v.
Proof.
  intros Hv. unfold has_email.
  rewrite orb_true_iff, !eq_match_Some by done. tauto.
Qed.

Lemma head_filter_Some {A} (p : A -> bool) (l : list A) :
  is_Some (head (List.filter p l)) <-> exists x, x ∈ l /\ p x = true.
Proof.
  split.
  - intros [x Hx]. exists x. apply head_Some_elem_of in Hx.
    rewrite list_elem_of_In in Hx. apply filter_In in Hx as [Hin Hp].
    by rewrite list_elem_of_In.
  - intros (x & Hin & Hp).
    destruct (List.filter p l) as [|y l'] eqn:Hf; [|by eexists].
    rewrite list_elem_of_In in Hin.
    assert (Hx : In x (List.filter p l)) by (apply filter_In; done).
    rewrite Hf in Hx. destruct Hx.
Qed.

Lemma head_filter_first {A} (p : A -> bool) (l : list A) (m : A) :
  head (List.filter p l) = Some m ->
  exists pre post, l = pre ++ m :: post /\
                   Forall (fun x => p x = false) pre /\ p m = true.
Proof.
  induction l as [|x l IH]; [done|]. simpl.
  destruct (p x) eqn:Hx.
  - intros [= <-]. by exists [], l.
  - intros (pre & post & -> & Hpre & Hm)%IH.
    exists (x :: pre), post. repeat split; [|done]. by constructor.
Qed.

End EmailLookup.

(** X1: for a request whose email is a string, a number or null, or is
    missing, the whitelist check says yes exactly when the email is given
    (not missing, null, empty or 0) and a stored record has that value as
    its email or as its spouse's email; it always answers in the whitelist
    shape and leaves the collection as it was. *)
Theorem check_whitelist_iff_record_has_email (email : option value) (docs : list doc) :
  exists c b msg,
    fst (check_whitelist email (fresh docs))
    = Return {| code := c; content := BWhitelist b msg |} /\
    members (snd (check_whitelist email (fresh docs))) = docs /\
    (b = true <->
     exists v d, email = Some v /\ js_truthy email = true /\ d ∈ docs /\
                 (d !! "Email" = Some v \/ d !! "Spouse email id" = Some v)).
Proof.
  unfold check_whitelist. destruct (js_truthy email) eqn:Ht; simpl.
  - destruct email as [v|]; [|done]. simpl.
    pose proof (truthy_not_null v Ht) as Hv.
    unfold try_catch, mbind, M_bind, bind. rewrite findOne_email.
    cbn [members fresh].
    destruct (head (List.filter (has_email v) docs)) as [m|] eqn:Hh.
    + do 3 eexists. split; [reflexivity|]. split; [reflexivity|].
      split; [|done]. intros _.
      destruct (proj1 (head_filter_Some (has_email v) docs)) as (d & Hd & He);
        [by rewrite Hh|].
      exists v, d. repeat split; try done. by apply has_email_iff.
    + do 3 eexists. split; [reflexivity|]. split; [reflexivity|].
      split; [done|]. intros (v' & d & [= <-] & _ & Hd & He).
      assert (Hs : is_Some (head (List.filter (has_email v) docs))).
      { apply head_filter_Some. exists d. split; [done|]. by apply has_email_iff. }
      rewrite Hh in Hs. by destruct Hs.
  - do 3 eexists. split; [reflexivity|]. split; [reflexivity|].
    split; [done|]. intros (v & d & -> & Ht' & _). congruence.
Qed.

(** X2: the lookup by email answers 200 exactly when the whitelist check of
    the same address says yes, and 404 otherwise; the member it sends is
    a stored record, whole, that has the address as its email or its
    spouse's, and the first such in the collection. *)
Theorem by_email_agrees_with_whitelist (email : string) (docs : list doc) :
  email <> "" ->
  exists b msg r,
    fst (check_whitelist (Some (VStr email)) (fresh docs))
    = Return {| code := 200; content := BWhitelist b msg |} /\
    fst (get_member_by_email email (fresh docs)) = Return r /\
    (code r = 200 <-> b = true) /\
    (b = false -> r = {| code := 404; content := BMessage "Member not found" |}) /\
    (forall m, content r = BMember m ->
       (m !! "Email" = Some (VStr email) \/ m !! "Spouse email id" = Some (VStr email)) /\
       exists pre post,
         docs = pre ++ m :: post /\
         Forall (fun x => x !! "Email" <> Some (VStr email) /\
                          x !! "Spouse email id" <> Some (VStr email)) pre).
Proof.
  intros He. apply String.eqb_neq in He.
  unfold check_whitelist, get_member_by_email, js_truthy. rewrite He. simpl.
  unfold try_catch, mbind, M_bind, bind. rewrite !findOne_email.
  cbn [members fresh].
  destruct (head (List.filter (has_email (VStr email)) docs)) as [m|] eqn:Hh.
  - do 3 eexists. split; [reflexivity|]. split; [reflexivity|].
    split; [done|]. split; [done|]. intros m' [= <-].
    apply head_filter_first in Hh as (pre & post & -> & Hpre & Hm).
    split; [by apply has_email_iff in Hm|].
    exists pre, post. split; [done|].
    eapply Forall_impl; [apply Hpre|]. intros x Hx. simpl in Hx.
    split; intros Hc;
      assert (Ht : has_email (VStr email) x = true)
        by (apply has_email_iff; [done|tauto]); congruence.
  - do 3 eexists. split; [reflexivity|]. split; [reflexivity|].
    split; [done|]. split; [done|]. done.
Qed.

Lemma by_email_agrees_with_whitelist_witness :
  exists b msg r,
    fst (check_whitelist (Some (VStr "selvi@example.org")) (fresh [meena; kannan]))
    = Return {| code := 200; content := BWhitelist b msg |} /\
    fst (get_member_by_email "selvi@example.org" (fresh [meena; kannan])) = Return r /\
    (code r = 200 <-> b = true) /\
    (b = false -> r = {| code := 404; content := BMessage "Member not found" |}) /\
    (forall m, content r = BMember m ->
       (m !! "Email" = Some (VStr "selvi@example.org") \/
        m !! "Spouse email id" = Some (VStr "selvi@example.org")) /\
       exists pre post,
         [meena; kannan] = pre ++ m :: post /\
         Forall (fun x => x !! "Email" <> Some (VStr "selvi@example.org") /\
                          x !! "Spouse email id" <> Some (VStr "selvi@example.org")) pre).
Proof.
  apply (by_email_agrees_with_whitelist "selvi@example.org" [meena; kannan]).
  discriminate.
Defined.

(** ** Lookup by identifier, and updates seen through it *)

Section ById.

Lemma findOne_by_id (oid : value) (w : world) :
  findOne (query_object [QField "_id" (CEq oid)]) w =
  (Return (by_id oid (members w)),
   {| members := members w;
      calls := calls w ++ [CallFindOne (query_object [QField "_id" (CEq oid)])] |}).
Proof.
  apply findOne_run, select_filter. intros d. apply eval_by_id.
Qed.

Lemma by_id_hit (hex : string) (pre post : list doc) (d : doc) :
  Forall (fun x => x !! "_id" <> Some (VOid hex)) pre ->
  d !! "_id" = Some (VOid hex) ->
  by_id (VOid hex) (pre ++ d :: post) = Some d.
Proof.
  intros Hpre Hd. unfold by_id. rewrite List.filter_app, filter_none.
  - simpl. by rewrite (proj2 (eq_match_oid _ _) Hd).
  - eapply Forall_impl; [apply Hpre|]. intros x Hx. by apply eq_match_oid_false.
Qed.

Lemma by_id_miss (hex : string) (docs : list doc) :
  Forall (fun x => x !! "_id" <> Some (VOid hex)) docs ->
  by_id (VOid hex) docs = None.
Proof.
  intros H. unfold by_id. rewrite filter_none; [done|].
  eapply Forall_impl; [apply H|]. intros x Hx. by apply eq_match_oid_false.
Qed.

(** [updateOne] by identifier on a collection whose first record with
    the identifier is [d]. *)
Lemma updateOne_at (hex : string) (set : doc) (w : world) (pre post : list doc) (d : doc) :
  members w = pre ++ d :: post ->
  Forall (fun x => x !! "_id" <> Some (VOid hex)) pre ->
  d !! "_id" = Some (VOid hex) ->
  let q := query_object [QField "_id" (CEq (VOid hex))] in
  let logged := calls w ++ [CallUpdateOne q set] in
  updateOne q set w =
  if bool_decide (is_Some (set !! "")) then
    (Throw MongoServerError, {| members := members w; calls := logged |})
  else
    match apply_set set d with
    | Written d' => (Return 1, {| members := pre ++ d' :: post; calls := logged |})
    | Refused => (Throw MongoServerError, {| members := members w; calls := logged |})
    | Unmodelled => (Beyond, {| members := members w; calls := logged |})
    end.
Proof.
  intros Hw Hpre Hd q logged. unfold updateOne, mbind, M_bind, bind, log_call.
  cbn [members calls]. case_bool_decide; [done|].
  rewrite Hw, (update_first_at q set pre post d).
  - by destruct (apply_set set d).
  - eapply Forall_impl; [apply Hpre|]. intros x Hx. simpl in Hx.
    unfold q. by rewrite eval_by_id, eq_match_oid_false.
  - unfold q. rewrite eval_by_id. f_equal. by apply eq_match_oid.
Qed.

Lemma updateOne_hit (hex : string) (set : doc) (w : world) (pre post : list doc) (d : doc) :
  map_Forall (fun k _ => plain_key k = true) set ->
  members w = pre ++ d :: post ->
  Forall (fun x => x !! "_id" <> Some (VOid hex)) pre ->
  d !! "_id" = Some (VOid hex) ->
  updateOne (query_object [QField "_id" (CEq (VOid hex))]) set w =
  (Return 1,
   {| members := pre ++ (set ∪ d) :: post;
      calls := calls w ++ [CallUpdateOne (query_object [QField "_id" (CEq (VOid hex))]) set] |}).
Proof.
  intros Hset Hw Hpre Hd. rewrite (updateOne_at hex set w pre post d) by done.
  rewrite (plain_key_nonempty _ Hset), apply_set_plain by done.
  by rewrite bool_decide_eq_false_2 by (by intros [? ?]).
Qed.

Lemma updateOne_miss (hex : string) (set : doc) (w : world) :
  map_Forall (fun k _ => plain_key k = true) set ->
  Forall (fun x => x !! "_id" <> Some (VOid hex)) (members w) ->
  updateOne (query_object [QField "_id" (CEq (VOid hex))]) set w =
  (Return 0,
   {| members := members w;
      calls := calls w ++ [CallUpdateOne (query_object [QField "_id" (CEq (VOid hex))]) set] |}).
Proof.
  intros Hset Hw. unfold updateOne, mbind, M_bind, bind, log_call. cbn [members calls].
  rewrite (plain_key_nonempty _ Hset).
  rewrite bool_decide_eq_false_2 by (by intros [? ?]).
  rewrite update_first_miss; [done|done|].
  eapply Forall_impl; [apply Hw|]. intros x Hx. simpl in Hx.
  by rewrite eval_by_id, eq_match_oid_false.
Qed.

(** The fields of the photo update are plain. *)
Lemma photo_fields_plain (link : value) (now : Z) :
  map_Forall (fun k _ => plain_key k = true)
    (js_object [("photo_link", link); ("UserUpdated", VDate now)]).
Proof.
  unfold js_object. cbn [foldl fst snd].
  apply map_Forall_insert_2; [done|]. apply map_Forall_insert_2; [done|].
  apply map_Forall_empty.
Qed.

(** A [$set] that does not name [_id] keeps the identifier. *)
Lemma set_keeps_id (set d : doc) :
  set !! "_id" = None -> (set ∪ d) !! "_id" = d !! "_id".
Proof. intros H. by rewrite lookup_union_r. Qed.

(** The profile update that reaches a record, in any world. *)
Lemma put_member_run (id : string) (updateData : doc) (now : Z) (w : world)
    (pre post : list doc) (d : doc) :
  ObjectId_isValid id = true ->
  map_Forall (fun k _ => plain_key k = true)
    (<["UserUpdated" := VDate now]> (delete "_id" updateData)) ->
  members w = pre ++ d :: post ->
  Forall (fun x => x !! "_id" <> Some (VOid (lower id))) pre ->
  d !! "_id" = Some (VOid (lower id)) ->
  let set := <["UserUpdated" := VDate now]> (delete "_id" updateData) in
  let q := query_object [QField "_id" (CEq (VOid (lower id)))] in
  put_member id updateData now w =
  (Return (res_json (JUpdated "Profile updated successfully" (Some (set ∪ d)))),
   {| members := pre ++ (set ∪ d) :: post;
      calls := (calls w ++ [CallUpdateOne q set]) ++ [CallFindOne q] |}).
Proof.
  intros Hid Hplain Hw Hpre Hd set q.
  unfold put_member, try_catch, mbind, M_bind, bind.
  rewrite new_ObjectId_valid by done. fold set.
  rewrite (updateOne_hit _ set w pre post d) by done.
  cbn [Z.eqb]. rewrite new_ObjectId_valid by done.
  rewrite findOne_by_id. cbn [members calls].
  rewrite by_id_hit; [done|done|].
  rewrite set_keeps_id; [done|].
  unfold set. rewrite lookup_insert_ne by done. apply lookup_delete_eq.
Qed.


(** The photo update that reaches a record, in any world. *)
Lemma put_member_photo_run (id : string) (link : value) (now : Z) (w : world)
    (pre post : list doc) (d : doc) :
  js_truthy (Some link) = true ->
  ObjectId_isValid id = true ->
  members w = pre ++ d :: post ->
  Forall (fun x => x !! "_id" <> Some (VOid (lower id))) pre ->
  d !! "_id" = Some (VOid (lower id)) ->
  let set := js_object [("photo_link", link); ("UserUpdated", VDate now)] in
  let q := query_object [QField "_id" (CEq (VOid (lower id)))] in
  put_member_photo id (Some link) now w =
  (Return (res_json (JUpdated "Photo updated successfully" (Some (set ∪ d)))),
   {| members := pre ++ (set ∪ d) :: post;
      calls := (calls w ++ [CallUpdateOne q set]) ++ [CallFindOne q] |}).
Proof.
  intros Ht Hid Hw Hpre Hd set q.
  unfold put_member_photo. rewrite Ht. cbn [negb default].
  unfold try_catch, mbind, M_bind, bind.
  rewrite new_ObjectId_valid by done. fold set.
  rewrite (updateOne_hit _ set w pre post d) by (done || apply photo_fields_plain).
  cbn [Z.eqb]. rewrite new_ObjectId_valid by done.
  rewrite findOne_by_id. cbn [members calls].
  rewrite by_id_hit; [done|done|].
  rewrite set_keeps_id; [done|]. reflexivity.
Qed.

End ById.

(** X3: the lookup by identifier answers 400 to a malformed identifier
    without calling the store; to a well-formed one it sends the first
    stored record with that identifier, whole, or answers 404 when there
    is none. It never changes the collection. *)
Theorem get_member_by_identifier (id : string) (docs : list doc) :
  get_member id (fresh docs) =
  if ObjectId_isValid id then
    (Return match by_id (VOid (lower id)) docs with
            | Some m => {| code := 200; content := BMember m |}
            | None => {| code := 404; content := BMessage "Not found" |}
            end,
     {| members := docs;
        calls := [CallFindOne (query_object [QField "_id" (CEq (VOid (lower id)))])] |})
  else
    (Return {| code := 400; content := BMessage "Invalid ID format" |}, fresh docs).
Proof.
  unfold get_member. destruct (ObjectId_isValid id) eqn:Hid; [|done].
  cbn [negb]. unfold try_catch, mbind, M_bind, bind.
  rewrite new_ObjectId_valid by done. rewrite findOne_by_id.
  cbn [members calls fresh app]. by destruct (by_id _ docs).
Qed.

(** X4: after a profile update with a payload of plain field names that
    reached a record, the lookup by the same identifier sends exactly the
    member the update answered with: the stored record as updated. *)
Theorem put_then_get_round_trip
  (id : string) (updateData : doc) (now : Z) (pre post : list doc) (d : doc) :
  ObjectId_isValid id = true ->
  plain_payload updateData ->
  Forall (fun x => x !! "_id" <> Some (VOid (lower id))) pre ->
  d !! "_id" = Some (VOid (lower id)) ->
  exists d',
    fst (put_member id updateData now (fresh (pre ++ d :: post)))
    = Return (res_json (JUpdated "Profile updated successfully" (Some d'))) /\
    fst (get_member id (snd (put_member id updateData now (fresh (pre ++ d :: post)))))
    = Return {| code := 200; content := BMember d' |}.
Proof.
  intros Hid Hplain Hpre Hd. eexists.
  apply (plain_fields _ now) in Hplain.
  rewrite (put_member_run id updateData now (fresh (pre ++ d :: post)) pre post d)
    by done.
  split; [reflexivity|]. cbn [snd].
  unfold get_member. rewrite Hid. cbn [negb].
  unfold try_catch, mbind, M_bind, bind.
  rewrite new_ObjectId_valid by done. rewrite findOne_by_id. cbn [members fst].
  rewrite by_id_hit; [done|done|].
  rewrite set_keeps_id; [done|].
  rewrite lookup_insert_ne by done. apply lookup_delete_eq.
Qed.

Lemma put_then_get_round_trip_witness :
  exists d',
    fst (put_member "64B7F0C2A1D3E4F5A6B7C8DA" payload_with_id 1700000000000
           (fresh ([ravi] ++ meena :: [kovil_only])))
    = Return (res_json (JUpdated "Profile updated successfully" (Some d'))) /\
    fst (get_member "64B7F0C2A1D3E4F5A6B7C8DA"
           (snd (put_member "64B7F0C2A1D3E4F5A6B7C8DA" payload_with_id 1700000000000
                   (fresh ([ravi] ++ meena :: [kovil_only])))))
    = Return {| code := 200; content := BMember d' |}.
Proof.
  apply (put_then_get_round_trip "64B7F0C2A1D3E4F5A6B7C8DA" payload_with_id
           1700000000000 [ravi] [kovil_only] meena).
  - reflexivity.
  - unfold plain_payload. apply (bool_decide_unpack _). vm_compute. exact I.
  - repeat constructor; vm_compute; discriminate.
  - reflexivity.
Defined.



(** ** PUT /members/:id/photo *)

(** X6: a photo update that reaches a record sets its photo link and its
    last-updated time and nothing else: every other field of the record,
    its identifier included, and every other record stay as they were;
    the reply carries the record as updated. *)
Theorem photo_update_sets_link_and_time_only
  (id : string) (link : value) (now : Z) (pre post : list doc) (d : doc) :
  js_truthy (Some link) = true ->
  ObjectId_isValid id = true ->
  Forall (fun x => x !! "_id" <> Some (VOid (lower id))) pre ->
  d !! "_id" = Some (VOid (lower id)) ->
  exists d' c1 c2,
    put_member_photo id (Some link) now (fresh (pre ++ d :: post)) =
    (Return (res_json (JUpdated "Photo updated successfully" (Some d'))),
     {| members := pre ++ d' :: post; calls := [c1; c2] |}) /\
    d' !! "photo_link" = Some link /\
    d' !! "UserUpdated" = Some (VDate now) /\
    (forall k, k <> "photo_link" -> k <> "UserUpdated" -> d' !! k = d !! k).
Proof.
  intros Ht Hid Hpre Hd. do 3 eexists. split.
  - by rewrite (put_member_photo_run id link now (fresh (pre ++ d :: post)) pre post d).
  - unfold js_object. cbn [foldl fst snd].
    split; [|split].
    + rewrite lookup_union, lookup_insert_ne, lookup_insert_eq by done.
      by destruct (d !! "photo_link").
    + rewrite lookup_union, lookup_insert_eq. by destruct (d !! "UserUpdated").
    + intros k Hk1 Hk2. rewrite lookup_union_r; [done|].
      by rewrite !lookup_insert_ne, lookup_empty.
Qed.

Lemma photo_update_sets_link_and_time_only_witness :
  exists d' c1 c2,
    put_member_photo "64B7F0C2A1D3E4F5A6B7C8DA" (Some (VStr "https://img.example.org/m.png"))
      1700000000000 (fresh ([ravi] ++ meena :: [kovil_only])) =
    (Return (res_json (JUpdated "Photo updated successfully" (Some d'))),
     {| members := [ravi] ++ d' :: [kovil_only]; calls := [c1; c2] |}) /\
    d' !! "photo_link" = Some (VStr "https://img.example.org/m.png") /\
    d' !! "UserUpdated" = Some (VDate 1700000000000) /\
    (forall k, k <> "photo_link" -> k <> "UserUpdated" -> d' !! k = meena !! k).
Proof.
  apply (photo_update_sets_link_and_time_only "64B7F0C2A1D3E4F5A6B7C8DA"
           (VStr "https://img.example.org/m.png") 1700000000000
           [ravi] [kovil_only] meena).
  - reflexivity.
  - reflexivity.
  - repeat constructor; vm_compute; discriminate.
  - reflexivity.
Defined.

(** X7: a photo update that reaches no record changes nothing, and its
    checks come in this order: a missing or empty photo link is answered
    400 before the identifier is looked at, then a malformed identifier
    is answered 500, and a well-formed one that no record has, 404. The
    store is called in the last case only. *)
Theorem photo_update_without_a_record
  (id : string) (photo_link : option value) (now : Z) (docs : list doc) :
  Forall (fun x => x !! "_id" <> Some (VOid (lower id))) docs ->
  fst (put_member_photo id photo_link now (fresh docs))
  = Return (if negb (js_truthy photo_link)
            then res_status_json 400 (JMessage "photo_link is required")
            else if ObjectId_isValid id
                 then res_status_json 404 (JMessage "Member not found")
                 else internal_error) /\
  members (snd (put_member_photo id photo_link now (fresh docs))) = docs /\
  (js_truthy photo_link && ObjectId_isValid id = false ->
   calls (snd (put_member_photo id photo_link now (fresh docs))) = []).
Proof.
  intros Hdocs. unfold put_member_photo.
  destruct (js_truthy photo_link) eqn:Ht; cbn [negb andb]; [|done].
  unfold try_catch, mbind, M_bind, bind.
  destruct (ObjectId_isValid id) eqn:Hid.
  - rewrite new_ObjectId_valid by done.
    rewrite updateOne_miss by (done || apply photo_fields_plain).
    by cbn [Z.eqb fst snd members fresh].
  - unfold new_ObjectId. by rewrite Hid.
Qed.

Lemma photo_update_without_a_record_witness :
  fst (put_member_photo "xyz" None 1700000000000 (fresh [meena; ravi]))
  = Return (if negb (js_truthy None)
            then res_status_json 400 (JMessage "photo_link is required")
            else if ObjectId_isValid "xyz"
                 then res_status_json 404 (JMessage "Member not found")
                 else internal_error) /\
  members (snd (put_member_photo "xyz" None 1700000000000 (fresh [meena; ravi])))
  = [meena; ravi] /\
  (js_truthy None && ObjectId_isValid "xyz" = false ->
   calls (snd (put_member_photo "xyz" None 1700000000000 (fresh [meena; ravi]))) = []).
Proof.
  apply (photo_update_without_a_record "xyz" None 1700000000000 [meena; ravi]).
  repeat constructor; vm_compute; discriminate.
Defined.

(** ** Trimming and the recipients of POST /send-email *)

Section Trim.

Lemma drop_space_In (c : ascii) (l : list ascii) : In c (drop_space l) -> In c l.
Proof.
  induction l as [|x l IH]; [done|]. simpl.
  destruct (is_space x); [|done]. intros H. right. by apply IH.
Qed.

Lemma drop_space_length (l : list ascii) : (length (drop_space l) <= length l)%nat.
Proof.
  induction l as [|x l IH]; [done|]. simpl. destruct (is_space x); simpl; lia.
Qed.

Lemma drop_space_head (l : list ascii) :
  match drop_space l with
  | [] => True
  | c :: _ => is_space c = false
  end.
Proof.
  induction l as [|x l IH]; [done|]. simpl. by destruct (is_space x) eqn:Hx.
Qed.

Lemma drop_space_fixed (l : list ascii) :
  drop_space l = l <-> match l with [] => True | c :: _ => is_space c = false end.
Proof.
  destruct l as [|c l]; [done|]. simpl. destruct (is_space c) eqn:Hc.
  - split; [|done]. intros H.
    pose proof (drop_space_length l) as Hlen. rewrite H in Hlen. simpl in Hlen. lia.
  - done.
Qed.

Lemma drop_space_idemp (l : list ascii) : drop_space (drop_space l) = drop_space l.
Proof. apply drop_space_fixed, drop_space_head. Qed.

(** What [drop_space] removes is a run of white space at the front. *)
Lemma drop_space_split (l : list ascii) :
  exists sp, l = sp ++ drop_space l /\ Forall (fun c => is_space c = true) sp.
Proof.
  induction l as [|x l (sp & Hl & Hsp)]; [by exists []|]. simpl.
  destruct (is_space x) eqn:Hx.
  - exists (x :: sp). split; [by rewrite Hl at 1|by constructor].
  - by exists [].
Qed.

Lemma drop_space_all (l : list ascii) :
  Forall (fun c => is_space c = true) l -> drop_space l = [].
Proof. induction 1 as [|x l Hx _ IH]; [done|]. simpl. by rewrite Hx. Qed.

Lemma trim_unfold (s : string) :
  trim s = string_of_list_ascii (trim_chars (list_ascii_of_string s)).
Proof. reflexivity. Qed.

Lemma trim_chars_front (l : list ascii) : drop_space (trim_chars l) = trim_chars l.
Proof.
  unfold trim_chars. set (l' := drop_space l).
  destruct (drop_space_split (rev l')) as (sp & Hl & Hsp).
  set (r := drop_space (rev l')) in *.
  assert (Hl' : l' = rev r ++ rev sp).
  { rewrite <- (rev_involutive l'), Hl. apply rev_app_distr. }
  apply drop_space_fixed. destruct (rev r) as [|c q] eqn:Hr; [done|].
  pose proof (drop_space_head l) as Hh. fold l' in Hh. by rewrite Hl' in Hh.
Qed.

Lemma trim_chars_back (l : list ascii) :
  drop_space (rev (trim_chars l)) = rev (trim_chars l).
Proof. unfold trim_chars. rewrite rev_involutive. apply drop_space_idemp. Qed.

Lemma trim_chars_In (c : ascii) (l : list ascii) : In c (trim_chars l) -> In c l.
Proof.
  unfold trim_chars. rewrite <- in_rev. intros H%drop_space_In.
  rewrite <- in_rev in H. by apply drop_space_In.
Qed.

Lemma trimmed_trim_chars (l : list ascii) :
  drop_space l = l -> drop_space (rev l) = rev l -> trim_chars l = l.
Proof.
  intros H1 H2. unfold trim_chars. by rewrite H1, H2, rev_involutive.
Qed.

End Trim.

(** Trimming leaves no white space at either end, adds no character, and
    trimming again changes nothing. *)
Theorem trim_is_trimmed_and_idempotent (s : string) :
  trimmed (trim s) /\
  trim (trim s) = trim s /\
  (forall c, In c (list_ascii_of_string (trim s)) -> In c (list_ascii_of_string s)).
Proof.
  unfold trimmed. rewrite !trim_unfold, !list_ascii_of_string_of_list_ascii.
  split; [|split].
  - split; [apply trim_chars_front|apply trim_chars_back].
  - f_equal. apply trimmed_trim_chars; [apply trim_chars_front|apply trim_chars_back].
  - intros c. apply trim_chars_In.
Qed.

Section Recipients.

Lemma chars_app (a b : string) :
  list_ascii_of_string (a +:+ b) = list_ascii_of_string a ++ list_ascii_of_string b.
Proof. induction a as [|c a IH]; [done|]. simpl. by rewrite IH. Qed.

Lemma chars_nonempty (s : string) : s <> "" -> list_ascii_of_string s <> [].
Proof. by destruct s. Qed.

Lemma split_comma_nonempty (s : list ascii) : split_comma s <> [].
Proof.
  induction s as [|c s IH]; [done|]. simpl.
  destruct (Ascii.eqb c ","); [done|]. by destruct (split_comma s).
Qed.

(** No piece holds a comma, and every character of a piece is one of the
    text. *)
Lemma split_comma_pieces (s : list ascii) :
  Forall (fun piece => ~ In ","%char piece /\ forall c, In c piece -> In c s)
         (split_comma s).
Proof.
  induction s as [|c s IH]; simpl.
  - repeat constructor; [by intros []|by intros ? []].
  - destruct (Ascii.eqb_spec c ",") as [->|Hc].
    + constructor; [split; [by intros []|by intros ? []]|].
      eapply Forall_impl; [apply IH|]. intros p [Hp1 Hp2]. split; [done|].
      intros x Hx. right. by apply Hp2.
    + destruct (split_comma s) as [|p ps] eqn:Hs;
        [by apply split_comma_nonempty in Hs|].
      inversion IH as [|? ? [Hp1 Hp2] Hps]; subst. constructor.
      * split.
        -- intros [?|?]; [by apply Hc|by apply Hp1].
        -- intros x [<-|Hx]; [by left|right; by apply Hp2].
      * eapply Forall_impl; [apply Hps|]. intros q [Hq1 Hq2]. split; [done|].
        intros x Hx. right. by apply Hq2.
Qed.

Lemma split_comma_no_comma (a : list ascii) :
  ~ In ","%char a -> split_comma a = [a].
Proof.
  induction a as [|c a IH]; [done|]. intros Hc. simpl.
  destruct (Ascii.eqb_spec c ",") as [->|_]; [by destruct Hc; left|].
  rewrite IH; [done|]. intros ?. apply Hc. by right.
Qed.

Lemma split_comma_app (a rest : list ascii) :
  ~ In ","%char a -> split_comma (a ++ ","%char :: rest) = a :: split_comma rest.
Proof.
  induction a as [|c a IH]; intros Hc; simpl; [done|].
  destruct (Ascii.eqb_spec c ",") as [->|_]; [by destruct Hc; left|].
  rewrite IH; [done|]. intros ?. apply Hc. by right.
Qed.

Lemma split_comma_space (z : list ascii) :
  split_comma (" "%char :: z) =
  match split_comma z with
  | piece :: pieces => (" "%char :: piece) :: pieces
  | [] => [[" "%char]]
  end.
Proof. reflexivity. Qed.

Lemma to_array_clean (recipients : string) :
  Forall clean_address (to_array recipients).
Proof.
  unfold to_array. apply Forall_forall. intros e He.
  rewrite list_elem_of_In in He. apply filter_In in He as [He Hne].
  apply in_map_iff in He as (piece & <- & Hp).
  pose proof (split_comma_pieces (list_ascii_of_string recipients)) as Hall.
  rewrite Forall_forall in Hall. rewrite <- list_elem_of_In in Hp.
  destruct (Hall piece Hp) as [Hcomma _].
  split; [|split].
  - apply negb_true_iff, String.eqb_neq in Hne. done.
  - unfold trimmed. rewrite trim_unfold, !list_ascii_of_string_of_list_ascii.
    split; [apply trim_chars_front|apply trim_chars_back].
  - rewrite trim_unfold, !list_ascii_of_string_of_list_ascii.
    intros Hc%trim_chars_In. by apply Hcomma.
Qed.

Lemma trim_clean (a : string) : trimmed a -> trim a = a.
Proof.
  intros [H1 H2]. rewrite trim_unfold, trimmed_trim_chars by done.
  apply string_of_list_ascii_of_string.
Qed.

Lemma trim_space_clean (a : string) :
  trimmed a -> trim (string_of_list_ascii (" "%char :: list_ascii_of_string a)) = a.
Proof.
  intros [H1 H2]. rewrite trim_unfold, list_ascii_of_string_of_list_ascii.
  unfold trim_chars. change (drop_space (" "%char :: ?l)) with (drop_space l).
  rewrite H1, H2, rev_involutive. apply string_of_list_ascii_of_string.
Qed.

Lemma split_join (a : string) (l : list string) :
  clean_address a -> Forall clean_address l ->
  split_comma (list_ascii_of_string (join_comma (a :: l))) =
  list_ascii_of_string a
    :: map (fun b => " "%char :: list_ascii_of_string b) l.
Proof.
  intros Ha Hl. revert a Ha.
  induction Hl as [|b l Hb Hl IH]; intros a (_ & _ & Hc).
  - by apply split_comma_no_comma.
  - change (join_comma (a :: b :: l)) with (a +:+ ", " +:+ join_comma (b :: l)).
    rewrite !chars_app. cbn [list_ascii_of_string app].
    rewrite split_comma_app by done. rewrite split_comma_space, IH by done.
    reflexivity.
Qed.

End Recipients.

(** X8: for a request whose recipients, subject and body are strings or
    missing, every address handed to the mail service is not empty, has
    no white space around it and no comma in it; a message is handed over
    exactly when both recipients and body are given and not empty, and
    then exactly one; without them the reply is 400. *)
Theorem mail_recipients_are_clean
  (sendMultiple : mail -> option string) (recipients subject body : option string) :
  let run := send_email sendMultiple recipients subject body in
  Forall (fun m => Forall clean_address (mail_to m)) (snd run) /\
  (length (snd run) <= 1)%nat /\
  (snd run = [] <-> truthy recipients && truthy body = false) /\
  (code (fst run) = 400 <-> truthy recipients && truthy body = false).
Proof.
  unfold send_email.
  destruct (truthy recipients), (truthy body); cbn [negb orb andb];
    try (repeat split; (done || (cbn; lia))).
  destruct (sendMultiple _); cbn [fst snd code length];
    (split; [repeat constructor; apply to_array_clean|]);
    repeat split; (done || lia).
Qed.

(** X9: a list of clean addresses written with ", " between them is read
    back as that list. *)
Theorem recipients_round_trip (l : list string) :
  Forall clean_address l -> to_array (join_comma l) = l.
Proof.
  intros Hl. destruct Hl as [|a l Ha Hl]; [done|].
  unfold to_array. rewrite split_join by done. cbn [map List.filter].
  destruct Ha as (Hne & Ht & _).
  rewrite string_of_list_ascii_of_string, trim_clean by done.
  rewrite (proj2 (String.eqb_neq a "")) by done. cbn [negb]. f_equal.
  induction Hl as [|b l (Hb & Htb & _) _ IH]; [done|].
  cbn [map List.filter]. rewrite trim_space_clean by done.
  rewrite (proj2 (String.eqb_neq b "")) by done. cbn [negb]. by rewrite IH.
Qed.

Lemma recipients_round_trip_witness :
  to_array (join_comma ["meena@example.org"; "k.ravi@example.org"; "Valli <v@example.org>"])
  = ["meena@example.org"; "k.ravi@example.org"; "Valli <v@example.org>"].
Proof.
  apply (recipients_round_trip
           ["meena@example.org"; "k.ravi@example.org"; "Valli <v@example.org>"]).
  repeat constructor; try discriminate; cbn; intuition discriminate.
Defined.

(** X10: recipients that hold nothing but commas and white space pass the
    check for presence, so the mail service is still called, with an
    empty list of addresses. *)
Theorem blank_recipients_reach_the_service
  (sendMultiple : mail -> option string) (recipients : string)
  (subject body : option string) :
  recipients <> "" ->
  Forall (fun c => is_space c = true \/ c = ","%char) (list_ascii_of_string recipients) ->
  truthy body = true ->
  exists msg,
    snd (send_email sendMultiple (Some recipients) subject body) = [msg] /\
    mail_to msg = [].
Proof.
  intros Hne Hall Hb. unfold send_email, truthy at 1.
  rewrite (proj2 (String.eqb_neq recipients "")) by done. rewrite Hb.
  cbn [negb orb default from_option id].
  assert (Hto : to_array recipients = []).
  { unfold to_array.
    pose proof (split_comma_pieces (list_ascii_of_string recipients)) as Hp.
    induction Hp as [|piece pieces [Hc Hin] _ IH]; [done|].
    cbn [map List.filter].
    assert (Hsp : Forall (fun c => is_space c = true) piece).
    { apply Forall_forall. intros c Hcin. rewrite list_elem_of_In in Hcin.
      rewrite Forall_forall in Hall.
      assert (Hcr : c ∈ list_ascii_of_string recipients)
        by (by apply list_elem_of_In, Hin).
      destruct (Hall c Hcr) as [Hs|Hcm]; [done|]. subst c. done. }
    rewrite trim_unfold, list_ascii_of_string_of_list_ascii.
    unfold trim_chars. rewrite (drop_space_all _ Hsp). cbn. apply IH. }
  rewrite Hto. destruct (sendMultiple _); by eexists.
Qed.

Lemma blank_recipients_reach_the_service_witness :
  exists msg,
    snd (send_email (fun _ => None) (Some " , ,") (Some "Pongal") (Some "Join us")) = [msg] /\
    mail_to msg = [].
Proof.
  apply (blank_recipients_reach_the_service (fun _ => None) " , ," (Some "Pongal")
           (Some "Join us")).
  - discriminate.
  - repeat constructor; (by left) || (by right).
  - reflexivity.
Defined.

(** ** The member search *)

Section Search.

Lemma field_match_plain (fields : list string) (t : string) (d : doc) :
  existsb (fun g => match d !! g with
                    | Some (VStr s) =>
                        Regex.search true (map Regex.Lit (list_ascii_of_string t))
                          (list_ascii_of_string s)
                    | _ => false
                    end) fields = true
  <-> field_contains fields t d.
Proof.
  rewrite existsb_exists. unfold field_contains, ci_substring. split.
  - intros (g & Hg & Hm). destruct (d !! g) as [[| s | | |]|] eqn:Hd; try done.
    exists g, s. rewrite list_elem_of_In, !lower_chars.
    by rewrite <- search_lit.
  - intros (g & s & Hg & Hd & Hsub). exists g.
    rewrite <- list_elem_of_In, Hd. split; [done|].
    rewrite !lower_chars in Hsub. by apply search_lit.
Qed.

Lemma eval_members_query (t : string) (r : list Regex.atom) (d : doc) :
  Regex.parse (list_ascii_of_string t) = Some r ->
  eval (members_query t) d =
  Some (existsb (fun f => match d !! f with
                          | Some (VStr s) => Regex.search true r (list_ascii_of_string s)
                          | _ => false
                          end) search_fields).
Proof.
  intros Hr.
  change (members_query t)
    with (query_object [QOr (map (fun f => QField f (regex_i t)) search_fields)]).
  unfold query_object. rewrite eval_QAnd_cons, (eval_any_regex t r) by done.
  cbn [eval mbind option_bind]. by rewrite andb_true_r.
Qed.

(** Letter case of the characters of a pattern *)










End Search.

(** X11: for a search term without pattern metacharacters the member search
    keeps exactly the records one of whose six searched fields (the four
    names, city, native village) holds a string that contains the term,
    letter case apart. *)
Theorem member_search_matches_substring (t : string) (docs : list doc) :
  Regex.plain t ->
  exists found,
    select (members_query t) docs = Some found /\
    forall d, d ∈ found <-> d ∈ docs /\ field_contains search_fields t d.
Proof.
  intros Hp. pose proof (parse_plain _ Hp) as Hr.
  eexists. split.
  - apply select_filter. intros d. by apply eval_members_query.
  - intros d. rewrite !list_elem_of_In, filter_In, field_match_plain. tauto.
Qed.

Lemma member_search_matches_substring_witness :
  exists found,
    select (members_query "anna") [meena; ravi] = Some found /\
    forall d, d ∈ found <-> d ∈ [meena; ravi] /\ field_contains search_fields "anna" d.
Proof.
  apply (member_search_matches_substring "anna" [meena; ravi]).
  repeat constructor.
Defined.



(** ** What the list handlers send *)

Section Lists.

Lemma select_elem (q : query) (docs found : list doc) (d : doc) :
  select q docs = Some found -> d ∈ found -> d ∈ docs /\ eval q d = Some true.
Proof.
  revert found. induction docs as [|x docs IH]; intros found; simpl.
  - intros [= <-] Hd. by apply not_elem_of_nil in Hd.
  - destruct (eval q x) as [b|] eqn:Hx; [|done]. simpl.
    destruct (select q docs) as [rest|]; [|done]. simpl.
    intros [= <-] Hd. destruct b.
    + apply elem_of_cons in Hd as [->|Hd].
      * split; [by left|done].
      * destruct (IH rest eq_refl Hd). split; [by right|done].
    + destruct (IH rest eq_refl Hd). split; [by right|done].
Qed.

Lemma apply_limit_elem (n : Z) (l : list doc) (d : doc) :
  d ∈ apply_limit n l -> d ∈ l.
Proof.
  unfold apply_limit. destruct (n =? 0); [done|].
  rewrite <- (take_drop (Z.to_nat n) l) at 2. intros H. apply elem_of_app. by left.
Qed.

Lemma drop_elem {A} (n : nat) (l : list A) (x : A) : x ∈ drop n l -> x ∈ l.
Proof.
  rewrite <- (take_drop n l) at 2. intros H. apply elem_of_app. by right.
Qed.

(** What a cursor that answers holds: projections of records that
    satisfy the query. *)
Lemma find_toArray_inv (c : cursor) (w w' : world) (rows : list doc) :
  find_toArray c w = (Return rows, w') ->
  members w' = members w /\
  Forall (fun row => exists d, d ∈ members w /\
                               eval (c_filter c) d = Some true /\
                               row = project (c_project c) d) rows.
Proof.
  unfold find_toArray, mbind, M_bind, bind, log_call. cbn [members calls].
  repeat case_bool_decide; try done.
  destruct (eval (c_filter c) ∅) as [b|]; [|done].
  destruct (select (c_filter c) (members w)) as [found|] eqn:Hsel; [|done].
  intros [= <- <-]. split; [done|].
  rewrite Forall_map. apply Forall_forall. intros d Hd.
  apply apply_limit_elem, drop_elem in Hd.
  rewrite sort_docs_Permutation in Hd.
  destruct (select_elem _ _ _ _ Hsel Hd). eauto.
Qed.

Lemma project_lookup_Some (fields : list string) (d : doc) (k : string) (v : value) :
  project fields d !! k = Some v -> k ∈ fields /\ d !! k = Some v.
Proof.
  unfold project. rewrite map_lookup_filter_Some. simpl. tauto.
Qed.

(** The page of a request whose page and limit are at least 1. *)
Lemma get_members_page (t : string) (page limit : Z) (docs : list doc)
    (p : doc -> bool) :
  1 <= page -> 1 <= limit ->
  (forall d, eval (members_query t) d = Some (p d)) ->
  fst (get_members (Some t) (Some page) (Some limit) (fresh docs)) =
  Return (res_json (JDocs
    (take (Z.to_nat limit)
       (drop (Z.to_nat ((page - 1) * limit))
          (map (project list_view) (sort_docs "First name" 1 (List.filter p docs))))))).
Proof.
  intros Hp Hl He. unfold get_members, mbind, M_bind, bind.
  assert (Hskip : 0 <= (page - 1) * limit) by nia.
  erewrite find_toArray_run;
    [|eexists; apply He|apply select_filter, He|exact Hskip|simpl; lia].
  simpl. unfold apply_limit. rewrite (proj2 (Z.eqb_neq limit 0)) by lia.
  by rewrite skipn_map, firstn_map.
Qed.

End Lists.

(** X13: over every store that sorts, whatever its pattern engine makes of
    the search term, and for every page and every limit that is not
    negative: either the store rejects the request (the term as a
    pattern, or a negative offset) and nothing is sent, or every record
    sent by the member list is the list view of a stored record: it has
    no field outside identifier, the four names, city and native village;
    emails and mobile numbers are never in it. *)
Theorem member_list_sends_list_view_only
  (engine : string -> string -> verdict) (order : cursor -> list doc -> list doc)
  (search : option string) (page limit : option Z) (w : world) :
  sorts order ->
  engine (default "" search) "i" <> Unknown ->
  0 <= default 20 limit ->
  fst (get_members_in engine order search page limit w) = Throw MongoServerError \/
  exists rows,
    fst (get_members_in engine order search page limit w)
    = Return (res_json (JDocs rows)) /\
    Forall (fun row =>
              (exists d, d ∈ members w /\ row = project list_view d) /\
              (forall k, is_Some (row !! k) -> k ∈ list_view) /\
              row !! "Email" = None /\ row !! "Spouse email id" = None /\
              row !! "Mobile number" = None /\ row !! "Spouse mobile number" = None)
           rows.
Proof.
  intros Hsorts Hengine Hlimit.
  set (pg := default 1 page). set (lim := default 20 limit) in *.
  set (c := {| c_filter := members_query (default "" search);
               c_project := list_view; c_sort := "First name";
               c_skip := Some ((pg - 1) * lim); c_limit := Some lim |}).
  destruct (decide ((pg - 1) * lim < 0)) as [Hneg|Hskip].
  { left. unfold get_members_in, find_toArray_in, mbind, M_bind, bind, log_call.
    fold pg lim. cbn [c_skip default from_option id fst].
    by rewrite bool_decide_eq_true_2. }
  destruct (engine (default "" search) "i") as [test| |] eqn:He; [| |done].
  - right. eexists. split.
    + unfold get_members_in, mbind, M_bind, bind. fold pg lim c.
      rewrite (find_toArray_in_run engine order c _ (matches_search test));
        [reflexivity|intros d; by apply eval_in_members_query|simpl; lia|simpl; lia].
    + cbn [c_project c_limit c_skip default from_option id].
      rewrite Forall_map. apply Forall_forall. intros d Hd.
      apply apply_limit_elem, drop_elem in Hd.
      rewrite (proj2 (Hsorts c _)) in Hd.
      rewrite list_elem_of_In in Hd. apply filter_In in Hd as [Hd _].
      rewrite <- list_elem_of_In in Hd.
      assert (Hk : forall k, is_Some (project list_view d !! k) -> k ∈ list_view).
      { intros k [v Hv]. by apply project_lookup_Some in Hv as [? _]. }
      assert (Hno : forall k, k ∉ list_view -> project list_view d !! k = None).
      { intros k Hk'. destruct (project list_view d !! k) eqn:E; [|done].
        exfalso. apply Hk'. apply Hk. by eexists. }
      split; [eauto|]. split; [done|].
      repeat split; apply Hno; unfold list_view; rewrite !not_elem_of_cons;
        repeat split; (discriminate || apply not_elem_of_nil).
  - left. unfold get_members_in, find_toArray_in, mbind, M_bind, bind, log_call.
    fold pg lim. cbn [c_skip c_limit c_filter default from_option id members].
    rewrite !bool_decide_eq_false_2 by lia.
    by rewrite eval_in_members_query_not_accepted, He.
Qed.

Lemma member_list_sends_list_view_only_witness :
  fst (get_members_in fragment_engine merge_order (Some "kan") None None (fresh [kannan]))
  = Throw MongoServerError \/
  exists rows,
    fst (get_members_in fragment_engine merge_order (Some "kan") None None
           (fresh [kannan]))
    = Return (res_json (JDocs rows)) /\
    Forall (fun row =>
              (exists d, d ∈ members (fresh [kannan]) /\ row = project list_view d) /\
              (forall k, is_Some (row !! k) -> k ∈ list_view) /\
              row !! "Email" = None /\ row !! "Spouse email id" = None /\
              row !! "Mobile number" = None /\ row !! "Spouse mobile number" = None)
           rows.
Proof.
  apply (member_list_sends_list_view_only fragment_engine merge_order
           (Some "kan") None None (fresh [kannan])).
  - exact merge_order_sorts.
  - discriminate.
  - simpl. lia.
Defined.

(** ** The list by category *)

Section CategoryList.

Lemma eval_category_query_eq (f value search : string) (d : doc) :
  eval (category_query f value search) d = Some true ->
  d !! f = Some (VStr value).
Proof.
  unfold category_query, query_object.
  destruct (negb (String.eqb search "") && negb (String.eqb (trim search) ""));
    cbn [app]; rewrite eval_QAnd_cons;
    change (eval (QField f (CEq (VStr value))) d)
      with (Some (eq_match (d !! f) (VStr value)));
    match goal with |- context [eval (QAnd ?qs) d] => destruct (eval (QAnd qs) d) as [bs|] end;
    simpl; destruct (eq_match (d !! f) (VStr value)) eqn:He; try done;
    intros _; by apply eq_match_str.
Qed.

Lemma category_field_in_view (category f : string) :
  category_field category = Some f -> f ∈ category_view.
Proof.
  unfold category_field, category_view.
  repeat (destruct (String.eqb category _); [intros [= <-]; set_solver|]).
  done.
Qed.

Lemma eval_category_query_total (f value search : string) :
  is_Some (Regex.parse (list_ascii_of_string search)) ->
  exists p, forall d, eval (category_query f value search) d = Some (p d).
Proof.
  intros [r Hr]. destruct (decide (trim search = "")) as [Hb|Hb].
  - eexists. intros d. by apply eval_category_query_blank.
  - eexists. intros d. by apply (eval_category_query f value search r d Hb Hr).
Qed.

Lemma sort_docs_nil (f : string) (dir : Z) : sort_docs f dir [] = [].
Proof. reflexivity. Qed.

End CategoryList.

(** X15: for every category among the four, every value and every search
    term of ordinary characters and dots, the list by category is answered
    200, and every record it sends is the category view of a stored record
    whose category field holds exactly the requested value, as a string;
    the record sent shows that value in the field. A year stored as a
    number is therefore never listed. *)
Theorem by_category_rows_hold_the_value
  (category value : string) (search : option string) (f : string) (w : world) :
  category_field category = Some f ->
  value <> "" ->
  is_Some (Regex.parse (list_ascii_of_string (default "" search))) ->
  exists rows,
    fst (get_members_by_category (Some category) (Some value) search w)
    = Return (res_json (JDocs rows)) /\
    Forall (fun row =>
              (exists d, d ∈ members w /\ d !! f = Some (VStr value) /\
                         row = project category_view d) /\
              row !! f = Some (VStr value)) rows.
Proof.
  intros Hf Hv Hre.
  pose proof (category_field_nonempty _ _ Hf) as Hc.
  destruct (eval_category_query_total f value (default "" search) Hre) as [p Hp].
  assert (Hrun : fst (get_members_by_category (Some category) (Some value) search w)
                 = Return (res_json (JDocs (map (project category_view)
                     (sort_docs "First name" 1 (List.filter p (members w))))))).
  { unfold get_members_by_category, truthy.
    apply String.eqb_neq in Hc, Hv. rewrite Hc, Hv. simpl.
    unfold try_catch. rewrite Hf. unfold mbind, M_bind, bind.
    erewrite find_toArray_run;
      [reflexivity|eexists; apply Hp|apply select_filter, Hp|simpl; lia..]. }
  eexists. split; [exact Hrun|].
  rewrite Forall_map. apply Forall_forall. intros d Hd.
  rewrite sort_docs_Permutation in Hd.
  rewrite list_elem_of_In in Hd. apply filter_In in Hd as [Hd Hpd].
  rewrite <- list_elem_of_In in Hd.
  assert (He : d !! f = Some (VStr value)).
  { apply (eval_category_query_eq f value (default "" search)). by rewrite Hp, Hpd. }
  split; [eauto|]. rewrite project_keeps; [done|]. by eapply category_field_in_view.
Qed.

Lemma by_category_rows_hold_the_value_witness :
  exists rows,
    fst (get_members_by_category (Some "cityResidence") (Some "Chennai") None
           (fresh [meena; ravi]))
    = Return (res_json (JDocs rows)) /\
    Forall (fun row =>
              (exists d, d ∈ members (fresh [meena; ravi]) /\
                         d !! "City" = Some (VStr "Chennai") /\
                         row = project category_view d) /\
              row !! "City" = Some (VStr "Chennai")) rows.
Proof.
  apply (by_category_rows_hold_the_value "cityResidence" "Chennai" None "City"
           (fresh [meena; ravi])).
  - reflexivity.
  - discriminate.
  - by eexists.
Defined.

(** X16: without a search term (absent, empty or blank) the list by category
    is the records whose category field holds exactly the value, sorted
    by first name, in the category view. *)
Theorem by_category_without_term
  (category value : string) (search : option string) (f : string) (docs : list doc) :
  category_field category = Some f ->
  value <> "" ->
  trim (default "" search) = "" ->
  exists found,
    fst (get_members_by_category (Some category) (Some value) search (fresh docs))
    = Return (res_json (JDocs (map (project category_view)
                                 (sort_docs "First name" 1 found)))) /\
    forall d, d ∈ found <-> d ∈ docs /\ d !! f = Some (VStr value).
Proof.
  intros Hf Hv Ht.
  pose proof (category_field_nonempty _ _ Hf) as Hc.
  exists (List.filter (fun d => eq_match (d !! f) (VStr value)) docs). split.
  - unfold get_members_by_category, truthy.
    apply String.eqb_neq in Hc, Hv. rewrite Hc, Hv. simpl.
    unfold try_catch. rewrite Hf. unfold mbind, M_bind, bind.
    erewrite find_toArray_run; [reflexivity| | |simpl; lia..].
    + simpl. erewrite eval_category_query_blank by done. by eexists.
    + simpl. apply select_filter. intros d. by apply eval_category_query_blank.
  - intros d. rewrite !list_elem_of_In, filter_In, eq_match_str. tauto.
Qed.

Lemma by_category_without_term_witness :
  exists found,
    fst (get_members_by_category (Some "nativeVillage") (Some "Karaikudi") (Some "  ")
           (fresh [meena; ravi]))
    = Return (res_json (JDocs (map (project category_view)
                                 (sort_docs "First name" 1 found)))) /\
    forall d, d ∈ found <->
              d ∈ [meena; ravi] /\ d !! "Chettinad native place" = Some (VStr "Karaikudi").
Proof.
  apply (by_category_without_term "nativeVillage" "Karaikudi" (Some "  ")
           "Chettinad native place" [meena; ravi]).
  - reflexivity.
  - discriminate.
  - reflexivity.
Defined.

(** X17: a category and value that no record has give status 200 with the
    empty sequence, not an error, for every search term within the
    modelled patterns. *)
Theorem by_category_no_match_is_empty
  (category value : string) (search : option string) (f : string) (docs : list doc) :
  category_field category = Some f ->
  value <> "" ->
  is_Some (Regex.parse (list_ascii_of_string (default "" search))) ->
  Forall (fun d => d !! f <> Some (VStr value)) docs ->
  fst (get_members_by_category (Some category) (Some value) search (fresh docs))
  = Return (res_json (JDocs [])).
Proof.
  intros Hf Hv [r Hr] Hdocs.
  pose proof (category_field_nonempty _ _ Hf) as Hc.
  unfold get_members_by_category, truthy.
  apply String.eqb_neq in Hc, Hv. rewrite Hc, Hv. simpl.
  unfold try_catch. rewrite Hf. unfold mbind, M_bind, bind.
  assert (He : Forall (fun d => eq_match (d !! f) (VStr value) = false) docs).
  { eapply Forall_impl; [apply Hdocs|]. intros d Hd. simpl in Hd.
    destruct (eq_match (d !! f) (VStr value)) eqn:E; [|done].
    by apply eq_match_str in E. }
  assert (Hsel : select (category_query f value (default "" search)) docs = Some []).
  { destruct (decide (trim (default "" search) = "")) as [Hb|Hb].
    - rewrite (select_filter _ (fun d => eq_match (d !! f) (VStr value)))
        by (intros d; by apply eval_category_query_blank).
      by rewrite filter_none.
    - erewrite select_filter
        by (intros d; by apply (eval_category_query f value _ r d Hb Hr)).
      rewrite filter_none; [done|].
      eapply Forall_impl; [apply He|]. intros d Hd. simpl in Hd. by rewrite Hd. }
  erewrite find_toArray_run; [|cbn [c_filter]|exact Hsel|simpl; lia..].
  - by vm_compute.
  - destruct (eval_category_query_total f value (default "" search)) as [p Hp];
      [by eexists|].
    rewrite Hp. by eexists.
Qed.

Lemma by_category_no_match_is_empty_witness :
  fst (get_members_by_category (Some "nagaraKovil") (Some "Vairavan") (Some "meena")
         (fresh [meena; ravi; kovil_only]))
  = Return (res_json (JDocs [])).
Proof.
  apply (by_category_no_match_is_empty "nagaraKovil" "Vairavan" (Some "meena") "Kovil"
           [meena; ravi; kovil_only]).
  - reflexivity.
  - discriminate.
  - by eexists.
  - repeat constructor; vm_compute; discriminate.
Defined.

(** ** Handlers that only read *)

Section ReadOnly.

Lemma read_only_ret {A} (a : A) : read_only (mret a : M A).
Proof. by intros w. Qed.

Lemma read_only_throw {A} (e : exn) : read_only (throw e : M A).
Proof. by intros w. Qed.

Lemma read_only_bind {A B} (m : M A) (k : A -> M B) :
  read_only m -> (forall a, read_only (k a)) -> read_only (m ≫= k).
Proof.
  intros Hm Hk w. unfold mbind, M_bind, bind. specialize (Hm w).
  destruct (m w) as [[a| |] w']; simpl in *; [|done..].
  by rewrite Hk.
Qed.

Lemma read_only_try_catch {A} (m : M A) (h : exn -> M A) :
  read_only m -> (forall e, read_only (h e)) -> read_only (try_catch m h).
Proof.
  intros Hm Hh w. unfold try_catch. specialize (Hm w).
  destruct (m w) as [[a|e|] w']; simpl in *; [done| |done].
  by rewrite Hh.
Qed.

Lemma read_only_log_call (c : call) : read_only (log_call c).
Proof. by intros w. Qed.

Lemma read_only_find_toArray (c : cursor) : read_only (find_toArray c).
Proof.
  apply read_only_bind; [apply read_only_log_call|]. intros _ w.
  repeat case_bool_decide; try done.
  by destruct (eval (c_filter c) ∅), (select (c_filter c) (members w)).
Qed.

Lemma read_only_aggregate_toArray (p : list stage) : read_only (aggregate_toArray p).
Proof.
  apply read_only_bind; [apply read_only_log_call|]. intros _ w.
  unfold of_option. by destruct (run_pipeline _ _).
Qed.

Lemma read_only_findOne (q : query) : read_only (findOne q).
Proof.
  apply read_only_bind; [apply read_only_log_call|]. intros _ w.
  unfold of_option. by destruct (head <$> select _ _).
Qed.

Lemma read_only_new_ObjectId (id : string) : read_only (new_ObjectId id).
Proof. unfold new_ObjectId. by destruct (ObjectId_isValid id). Qed.

Lemma read_only_toString (v : option value) : read_only (toString v).
Proof.
  destruct v as [[| |z| |]|]; try done.
  intros w. unfold toString, of_option. by destruct (number_text z).
Qed.

Lemma read_only_mapM {A B} (f : A -> M B) (l : list A) :
  (forall x, read_only (f x)) -> read_only (mapM f l).
Proof.
  intros Hf. induction l as [|x l IH]; [apply read_only_ret|].
  cbn [mapM]. apply read_only_bind; [done|]. intros y.
  apply read_only_bind; [done|]. intros ys. apply read_only_ret.
Qed.

Lemma read_only_stats (p : list stage) :
  read_only (result ← aggregate_toArray p; mret (res_json (JDocs result))).
Proof.
  apply read_only_bind; [apply read_only_aggregate_toArray|].
  intros ?. apply read_only_ret.
Qed.

End ReadOnly.

(** X18: search, lists, statistics and lookups never change the collection,
    whatever the request and whatever they answer. *)
Theorem reading_handlers_leave_the_collection
  (email : option value) (search category val : option string)
  (page limit : option Z) (id address : string) :
  read_only (get_members search page limit) /\
  read_only (get_members_by_category category val search) /\
  read_only get_analytics /\
  read_only get_stats_native_village /\
  read_only get_stats_city /\
  read_only get_stats_kovil /\
  read_only get_stats_year /\
  read_only (check_whitelist email) /\
  read_only (get_member id) /\
  read_only (get_member_by_email address).
Proof.
  repeat split; try apply read_only_stats.
  - apply read_only_bind; [apply read_only_find_toArray|].
    intros ?. apply read_only_ret.
  - unfold get_members_by_category.
    destruct (negb (truthy category) || negb (truthy val)); [apply read_only_ret|].
    apply read_only_try_catch; [|intros ?; apply read_only_ret].
    destruct (category_field _); [|apply read_only_ret].
    apply read_only_bind; [apply read_only_find_toArray|].
    intros ?. apply read_only_ret.
  - apply read_only_try_catch; [|intros ?; apply read_only_ret].
    do 4 (apply read_only_bind; [apply read_only_aggregate_toArray|]; intros ?).
    apply read_only_bind; [|intros ?; apply read_only_ret].
    apply read_only_mapM. intros item.
    apply read_only_bind; [apply read_only_toString|].
    intros ?. apply read_only_ret.
  - unfold check_whitelist. destruct (negb (js_truthy email)); [apply read_only_ret|].
    apply read_only_try_catch; [|intros ?; apply read_only_ret].
    apply read_only_bind; [apply read_only_findOne|].
    intros [m|]; apply read_only_ret.
  - unfold get_member. destruct (negb (ObjectId_isValid id)); [apply read_only_ret|].
    apply read_only_try_catch; [|intros ?; apply read_only_ret].
    apply read_only_bind; [apply read_only_new_ObjectId|]. intros oid.
    apply read_only_bind; [apply read_only_findOne|].
    intros [m|]; apply read_only_ret.
  - apply read_only_try_catch; [|intros ?; apply read_only_ret].
    apply read_only_bind; [apply read_only_findOne|].
    intros [m|]; apply read_only_ret.
Qed.

(** ** What the statistics count *)

Section Counting.

Lemma tbl_get_bump (k k' : value) (tbl : list (value * Z)) :
  tbl_get k (bump k' tbl) = tbl_get k tbl + (if decide (k = k') then 1 else 0).
Proof.
  induction tbl as [|[k0 n] tbl IH]; simpl.
  - destruct (decide (k = k')); lia.
  - destruct (decide (k' = k0)) as [->|Hne]; simpl.
    + destruct (decide (k = k0)); lia.
    + destruct (decide (k = k0)) as [->|?].
      * rewrite decide_False by done. lia.
      * apply IH.
Qed.

Lemma tally_get (f : string) (k : value) (docs : list doc) :
  tbl_get k (tally f docs) = count_key f k docs.
Proof.
  unfold tally, count_key.
  enough (H : forall tbl,
             tbl_get k (foldl (fun tbl d => bump (field_or_null f d) tbl) tbl docs)
             = tbl_get k tbl
               + Z.of_nat (length (List.filter
                   (fun d => bool_decide (field_or_null f d = k)) docs)))
    by (rewrite H; simpl; lia).
  induction docs as [|d docs IH]; intros tbl; simpl; [lia|].
  rewrite IH, tbl_get_bump.
  destruct (decide (k = field_or_null f d)) as [->|Hne].
  - rewrite bool_decide_eq_true_2 by done. simpl length. lia.
  - rewrite bool_decide_eq_false_2 by congruence. lia.
Qed.

Lemma tbl_get_absent (k : value) (tbl : list (value * Z)) :
  k ∉ map fst tbl -> tbl_get k tbl = 0.
Proof.
  induction tbl as [|[k0 n] tbl IH]; [done|]. simpl.
  rewrite not_elem_of_cons. intros [Hne Hnin]. rewrite decide_False by done. auto.
Qed.

Lemma tbl_get_present (k : value) (n : Z) (tbl : list (value * Z)) :
  NoDup (map fst tbl) -> (k, n) ∈ tbl -> tbl_get k tbl = n.
Proof.
  induction tbl as [|[k0 n0] tbl IH]; simpl.
  - intros _ H. by apply not_elem_of_nil in H.
  - rewrite NoDup_cons. intros [Hnin Hnd] [[= -> ->]|Hin]%elem_of_cons.
    + by rewrite decide_True.
    + destruct (decide (k = k0)) as [->|?]; [|auto].
      exfalso. apply Hnin. apply list_elem_of_In, in_map_iff.
      exists (k0, n). split; [done|]. by apply list_elem_of_In.
Qed.

Lemma count_key_nonneg (f : string) (k : value) (docs : list doc) :
  0 <= count_key f k docs.
Proof. unfold count_key. lia. Qed.

Lemma count_key_member (f : string) (d : doc) (docs : list doc) :
  d ∈ docs -> 1 <= count_key f (field_or_null f d) docs.
Proof.
  unfold count_key. induction 1 as [d docs|d x docs _ IH]; simpl.
  - rewrite bool_decide_eq_true_2 by done. simpl. lia.
  - destruct (bool_decide _); simpl; lia.
Qed.

Lemma count_key_filter (f : string) (k : value) (docs : list doc) :
  k <> VStr "" ->
  count_key f k (List.filter (not_empty f) docs) = count_key f k docs.
Proof.
  intros Hk. unfold count_key. f_equal. f_equal.
  induction docs as [|d docs IH]; [done|]. simpl.
  unfold not_empty at 1, eq_match. fold (field_or_null f d).
  destruct (decide (field_or_null f d = VStr "")) as [He|He].
  - rewrite bool_decide_eq_true_2 by done. simpl.
    rewrite (bool_decide_eq_false_2 (field_or_null f d = k)) by congruence. done.
  - rewrite bool_decide_eq_false_2 by done. simpl. by rewrite IH.
Qed.

Lemma bump_positive (k : value) (tbl : list (value * Z)) :
  Forall (fun kn => 1 <= kn.2) tbl -> Forall (fun kn => 1 <= kn.2) (bump k tbl).
Proof.
  induction 1 as [|[k' n] tbl Hn Htbl IH]; simpl.
  - by repeat constructor.
  - destruct (decide (k = k')); constructor; simpl in *; (done || lia).
Qed.

Lemma tally_positive (f : string) (docs : list doc) :
  Forall (fun kn => 1 <= kn.2) (tally f docs).
Proof.
  unfold tally.
  enough (H : forall tbl, Forall (fun kn => 1 <= kn.2) tbl ->
             Forall (fun kn => 1 <= kn.2)
               (foldl (fun tbl d => bump (field_or_null f d) tbl) tbl docs))
    by (apply H; constructor).
  induction docs as [|d docs IH]; intros tbl Htbl; simpl; [done|].
  by apply IH, bump_positive.
Qed.

(** The rows of a field's statistics, however ordered: distinct keys,
    none the empty string; each count is the number of records whose
    field reads as the key (null for a missing field) and is at least 1;
    and every value that is not the empty string has its row. *)
Lemma groups_count_records (f : string) (docs rows : list doc) :
  rows ≡ₚ groups f docs ->
  NoDup (map (field_or_null "_id") rows) /\
  Forall (fun r => exists k n, r = group_row (k, n) /\ k <> VStr "" /\
                               1 <= n /\ n = count_key f k docs) rows /\
  (forall d, d ∈ docs -> field_or_null f d <> VStr "" ->
             exists r, r ∈ rows /\ field_or_null "_id" r = field_or_null f d).
Proof.
  intros Hp.
  set (kept := List.filter (not_empty f) docs).
  assert (Hget : forall k n, (k, n) ∈ tally f kept -> n = count_key f k kept).
  { intros k n Hin. rewrite <- tally_get. symmetry.
    apply tbl_get_present; [apply tally_NoDup|done]. }
  assert (Hkeys : Forall (fun kn => kn.1 <> VStr "") (tally f kept)).
  { apply (tally_keys (fun k => k <> VStr "")). apply Forall_forall.
    intros d Hd. rewrite list_elem_of_In in Hd. apply filter_In in Hd as [_ Hne].
    unfold not_empty, eq_match in Hne. fold (field_or_null f d) in Hne.
    intros Hk. by rewrite bool_decide_eq_true_2 in Hne. }
  split; [|split].
  - change (map (field_or_null "_id") rows) with (field_or_null "_id" <$> rows).
    rewrite Hp. apply groups_distinct_keys.
  - rewrite Hp. unfold groups. fold kept. rewrite Forall_map.
    apply Forall_forall. intros [k n] Hin.
    rewrite Forall_forall in Hkeys. pose proof (Hkeys _ Hin) as Hk. simpl in Hk.
    exists k, n. split; [done|]. split; [done|].
    pose proof (Hget k n Hin) as Hn. unfold kept in Hn.
    rewrite count_key_filter in Hn by done.
    split; [|done].
    pose proof (tally_positive f kept) as Hpos. rewrite Forall_forall in Hpos.
    apply (Hpos _ Hin).
  - intros d Hd Hne.
    assert (Hkept : d ∈ kept).
    { apply list_elem_of_In, filter_In. split; [by apply list_elem_of_In|].
      unfold not_empty, eq_match. fold (field_or_null f d).
      by rewrite bool_decide_eq_false_2. }
    pose proof (count_key_member f d kept Hkept) as Hc.
    rewrite <- tally_get in Hc.
    destruct (decide (field_or_null f d ∈ map fst (tally f kept))) as [Hin|Hnin].
    + apply list_elem_of_In, in_map_iff in Hin as ([k n] & Hk & Hin). simpl in Hk.
      exists (group_row (k, n)). split.
      * rewrite Hp. unfold groups. fold kept. apply list_elem_of_In, in_map_iff. eauto.
      * by rewrite <- Hk.
    + rewrite tbl_get_absent in Hc by done. lia.
Qed.

End Counting.

(** X19: in each single-field statistics response the keys are distinct and
    none is the empty string; each count is the number of stored records
    whose field reads as the key, a missing field reading as null, and
    is at least 1; and every value other than the empty string has its
    row. *)
Theorem stats_rows_count_their_records (docs : list doc) :
  let counted (h : M response) (f : string) :=
    exists rows,
      fst (h (fresh docs)) = Return (res_json (JDocs rows)) /\
      NoDup (map (field_or_null "_id") rows) /\
      Forall (fun r => exists k n, r = group_row (k, n) /\ k <> VStr "" /\
                                   1 <= n /\ n = count_key f k docs) rows /\
      (forall d, d ∈ docs -> field_or_null f d <> VStr "" ->
                 exists r, r ∈ rows /\ field_or_null "_id" r = field_or_null f d) in
  counted get_stats_native_village "Chettinad native place" /\
  counted get_stats_city "City" /\
  counted get_stats_kovil "Kovil" /\
  counted get_stats_year "YearSince".
Proof.
  cbv zeta. repeat apply conj.
  - eexists. unfold get_stats_native_village. rewrite get_stats_run.
    split; [reflexivity|]. apply groups_count_records, sort_docs_Permutation.
  - eexists. unfold get_stats_city. rewrite get_stats_run.
    split; [reflexivity|]. apply groups_count_records, sort_docs_Permutation.
  - eexists. unfold get_stats_kovil. rewrite get_stats_run.
    split; [reflexivity|]. apply groups_count_records, sort_docs_Permutation.
  - eexists. rewrite get_stats_year_run.
    split; [reflexivity|]. apply groups_count_records, sort_docs_Permutation.
Qed.

(** ** GET /analytics on a record without a year *)

Section AnalyticsFailure.

Lemma value_le_null (v : value) : value_le v VNull -> v = VNull.
Proof. unfold value_le. by destruct v. Qed.

Lemma name_string_count_null (item : doc) (w : world) :
  field_or_null "_id" item = VNull ->
  name_string_count item w = (Throw TypeError, w).
Proof.
  unfold name_string_count, field_or_null, mbind, M_bind, bind.
  by destruct (item !! "_id") as [[]|].
Qed.

(** The null key sorts first. *)
Lemma sorted_null_first (rows : list doc) :
  StronglySorted (by_field "_id" 1) rows ->
  (exists g, g ∈ rows /\ field_or_null "_id" g = VNull) ->
  exists h rest, rows = h :: rest /\ field_or_null "_id" h = VNull.
Proof.
  intros HS (g & Hg & Hnull). destruct rows as [|h rest]; [by apply not_elem_of_nil in Hg|].
  exists h, rest. split; [done|].
  apply elem_of_cons in Hg as [<-|Hg]; [done|].
  apply StronglySorted_inv in HS as [_ Hall]. rewrite Forall_forall in Hall.
  specialize (Hall g Hg). unfold by_field in Hall. simpl in Hall.
  rewrite Hnull in Hall. by apply value_le_null.
Qed.

End AnalyticsFailure.

(** X20: one stored record whose year is missing or null is enough for the
    combined statistics to be answered 500: its group has the key null,
    the null key comes first in the year order, and the reshape of the
    year rows throws on it. *)
Theorem analytics_fails_on_a_record_without_year (docs : list doc) :
  (exists d, d ∈ docs /\ field_or_null "YearSince" d = VNull) ->
  fst (get_analytics (fresh docs)) = Return internal_error.
Proof.
  intros (d & Hd & Hnull).
  destruct (groups_count_records "YearSince" docs
              (sort_docs "_id" 1 (groups "YearSince" docs))
              (sort_docs_Permutation _ _ _)) as (_ & _ & Hrow).
  destruct (Hrow d Hd) as (g & Hg & Hkey); [by rewrite Hnull|].
  rewrite Hnull in Hkey.
  destruct (sorted_null_first (sort_docs "_id" 1 (groups "YearSince" docs))
              (sort_docs_StronglySorted "_id" 1 _))
    as (h & rest & HS & Hh); [eauto|].
  unfold get_analytics, try_catch, mbind, M_bind, bind.
  do 3 (erewrite aggregate_toArray_run by (cbn [members fresh]; apply run_top10_pipeline)).
  erewrite aggregate_toArray_run by (cbn [members fresh]; apply run_year_pipeline).
  rewrite HS. cbn [mapM]. unfold mbind, M_bind, bind.
  by rewrite name_string_count_null.
Qed.

Lemma analytics_fails_on_a_record_without_year_witness :
  fst (get_analytics (fresh (twelve_settlers ++ [meena]))) = Return internal_error.
Proof.
  apply (analytics_fails_on_a_record_without_year (twelve_settlers ++ [meena])).
  exists meena. split; [|reflexivity].
  apply elem_of_app. right. apply list_elem_of_singleton. reflexivity.
Defined.

(** X21: when every record has a year that is a string or an integer that
    a number holds exactly, the combined view is answered 200; its
    village, city and temple sequences descend by count, and its
    year-moved sequence is the reshape, each key turned to its text, of
    the year groups in ascending order of key. *)
Theorem combined_view_is_ordered (docs : list doc) :
  Forall year_known docs ->
  exists nv cr nk rows ym,
    fst (get_analytics (fresh docs))
    = Return (res_json (JAnalytics nv cr nk ym)) /\
    descending_by "count" nv /\ descending_by "count" cr /\
    descending_by "count" nk /\
    Forall2 (fun g r => year_name_count g = Some r) rows ym /\
    ascending_by "_id" rows /\ rows ≡ₚ groups "YearSince" docs.
Proof.
  intros Hy. destruct (get_analytics_run docs Hy) as (ym & Hym & Hrun).
  do 3 eexists. exists (sort_docs "_id" 1 (groups "YearSince" docs)), ym.
  split; [exact Hrun|].
  split; [apply descending_top10, sort_docs_StronglySorted|].
  split; [apply descending_top10, sort_docs_StronglySorted|].
  split; [apply descending_top10, sort_docs_StronglySorted|].
  split; [done|].
  split; [apply (sort_docs_Sorted "_id" 1)|apply sort_docs_Permutation].
Qed.

Lemma combined_view_is_ordered_witness :
  exists nv cr nk rows ym,
    fst (get_analytics (fresh twelve_settlers))
    = Return (res_json (JAnalytics nv cr nk ym)) /\
    descending_by "count" nv /\ descending_by "count" cr /\
    descending_by "count" nk /\
    Forall2 (fun g r => year_name_count g = Some r) rows ym /\
    ascending_by "_id" rows /\ rows ≡ₚ groups "YearSince" twelve_settlers.
Proof.
  apply (combined_view_is_ordered twelve_settlers).
  apply (bool_decide_unpack _). vm_compute. exact I.
Defined.
